(** * Thai Typography Intelligence: rule store and matcher

    A shallow embedding of [tti/loadRules.js], [tti/ruleEngine.js], the
    request handler and [start] of [tti/server.js] and [main] of
    [tti/index.js], followed by the properties of the rule store and of
    [selectRule].

    - JavaScript strings are sequences of UTF-16 code units, numbers are
      IEEE 754 binary64 values (Rocq's primitive floats), rule objects are
      finite maps from property names to primitive values.
    - What the engine does at its limits is part of the model where the
      program reaches them: a call takes only so many arguments, an
      assignment to [__proto__] stores nothing, and [JSON.stringify]
      leaves out what is [undefined].
    - The two modules share one array object: [loadRules.js] keeps it in
      its module variable [rules] and exports it, [ruleEngine.js] binds
      the exported object once.  Arrays therefore live in a heap and are
      named by locations, so that rebinding the variable and mutating the
      object are different operations. *)

From Stdlib Require Import ZArith Floats String Ascii List Sorted Lia.
From stdpp Require Import gmap list.

(** ** JavaScript strings *)

Definition js_string := list N.

(** The code units of an ASCII literal. *)
Definition str (s : string) : js_string :=
  N_of_ascii <$> list_ascii_of_string s.

(** [WhiteSpace] and [LineTerminator] code points, the characters that
    [String.prototype.trim] and [Number] strip. *)
Definition is_white_space (c : N) : bool :=
  bool_decide (c ∈ [9; 10; 11; 12; 13; 32; 160; 5760; 8232; 8233; 8239;
                    8287; 12288; 65279]%N)
  || ((8192 <=? c)%N && (c <=? 8202)%N).

Fixpoint trimStart (s : js_string) : js_string :=
  match s with
  | c :: s' => if is_white_space c then trimStart s' else s
  | [] => []
  end.

Definition trimEnd (s : js_string) : js_string :=
  reverse (trimStart (reverse s)).

Definition trim (s : js_string) : js_string := trimEnd (trimStart s).

(** ** JavaScript numbers *)

Definition is_digit (c : N) : bool := ((48 <=? c) && (c <=? 57))%N.

Definition digit_value (c : N) : Z := Z.of_N c - 48.

(** The value of a hexadecimal digit, if [c] is one. *)
Definition hex_digit_value (c : N) : option Z :=
  if is_digit c then Some (Z.of_N c - 48)%Z
  else if ((97 <=? c) && (c <=? 102))%N then Some (Z.of_N c - 87)%Z
  else if ((65 <=? c) && (c <=? 70))%N then Some (Z.of_N c - 55)%Z
  else None.

(** The longest prefix of decimal digits, and the rest. *)
Fixpoint span_digits (s : js_string) : js_string * js_string :=
  match s with
  | c :: s' =>
      if is_digit c then let '(ds, r) := span_digits s' in (c :: ds, r)
      else ([], s)
  | [] => ([], [])
  end.

Definition digits_value (ds : js_string) : Z :=
  foldl (fun acc c => (10 * acc + digit_value c)%Z) 0%Z ds.

(** The mathematical value of the digits [ds] in base [base], or [None]
    when [ds] is empty or holds a character that is no digit of it. *)
Definition radix_value (base : Z) (ds : js_string) : option Z :=
  match ds with
  | [] => None
  | _ =>
      foldl (fun acc c =>
               match acc, hex_digit_value c with
               | Some a, Some d =>
                   if (d <? base)%Z then Some (base * a + d)%Z else None
               | _, _ => None
               end) (Some 0%Z) ds
  end.

(** What a [StringNumericLiteral] denotes before rounding:
    [m * 10 ^ e] with its sign, or an infinity. *)
Inductive literal :=
  | LitInfinity (negative : bool)
  | LitDecimal (negative : bool) (m : Z) (e : Z).

(** [ExponentPart]: [e] or [E], an optional sign, at least one digit,
    and nothing after it. *)
Definition parse_exponent (s : js_string) : option Z :=
  match s with
  | [] => Some 0%Z
  | c :: s' =>
      if bool_decide (c = 101%N) || bool_decide (c = 69%N) then
        let '(negative, s'') :=
          match s' with
          | 43%N :: r => (false, r)
          | 45%N :: r => (true, r)
          | _ => (false, s')
          end in
        match span_digits s'' with
        | ((_ :: _) as ds, []) =>
            Some (if negative then - digits_value ds else digits_value ds)%Z
        | _ => None
        end
      else None
  end.

(** [StrUnsignedDecimalLiteral]. *)
Definition parse_unsigned (negative : bool) (s : js_string) : option literal :=
  if bool_decide (s = str "Infinity") then Some (LitInfinity negative)
  else
    let '(int_part, r1) := span_digits s in
    let '(frac_part, r2) :=
      match r1 with
      | 46%N :: r => span_digits r
      | _ => ([], r1)
      end in
    match int_part ++ frac_part with
    | [] => None
    | ds =>
        match parse_exponent r2 with
        | Some e =>
            Some (LitDecimal negative (digits_value ds)
                    (e - Z.of_nat (length frac_part)))
        | None => None
        end
    end.

(** [StrNumericLiteral]: a signed decimal literal, or an unsigned binary,
    octal or hexadecimal integer literal. *)
Definition parse_numeric (s : js_string) : option literal :=
  match s with
  | 48%N :: p :: ds =>
      if bool_decide (p = 120%N) || bool_decide (p = 88%N) then
        (fun m => LitDecimal false m 0) <$> radix_value 16 ds
      else if bool_decide (p = 111%N) || bool_decide (p = 79%N) then
        (fun m => LitDecimal false m 0) <$> radix_value 8 ds
      else if bool_decide (p = 98%N) || bool_decide (p = 66%N) then
        (fun m => LitDecimal false m 0) <$> radix_value 2 ds
      else parse_unsigned false s
  | 43%N :: s' => parse_unsigned false s'
  | 45%N :: s' => parse_unsigned true s'
  | _ => parse_unsigned false s
  end.

(** The binary64 value nearest to [m * 10 ^ e] (ties to even), by the
    rounding functions of the IEEE 754 specification in [SpecFloat]. *)
Definition round_decimal (negative : bool) (m e : Z) : spec_float :=
  match m with
  | Zpos p =>
      if (0 <=? e)%Z then
        binary_round prec emax negative (p * Z.to_pos (10 ^ e)) 0
      else
        let '(q, e', l) :=
          SFdiv_core_binary prec emax (Zpos p) 0 (10 ^ (- e)) 0 in
        binary_round_aux prec emax negative q e' l
  | _ => S754_zero negative
  end.

(** [StringToNumber]: the empty (or all white space) string is [+0], a
    string that is no numeric literal is [NaN]. *)
Definition StringToNumber (s : js_string) : float :=
  match trim s with
  | [] => 0%float
  | t =>
      match parse_numeric t with
      | Some (LitInfinity negative) =>
          if negative then neg_infinity else infinity
      | Some (LitDecimal negative m e) => SF2Prim (round_decimal negative m e)
      | None => nan
      end
  end.

(** [Number.isFinite] on a number. *)
Definition Number_isFinite (n : float) : bool := is_finite n.

(** [Number.isInteger] on a number: finite, with no fractional part. *)
Definition Number_isInteger (n : float) : bool :=
  match Prim2SF n with
  | S754_zero _ => true
  | S754_finite _ m e =>
      (0 <=? e)%Z || (Zpos m mod 2 ^ (- e) =? 0)%Z
  | _ => false
  end.

(** ** JavaScript values *)

(** The primitive values.  A rule object holds strings and numbers; the
    attributes of a query are taken to be primitive values as well. *)
Inductive value :=
  | VUndefined
  | VNull
  | VBoolean (b : bool)
  | VNumber (n : float)
  | VString (s : js_string).

Definition ToBoolean (v : value) : bool :=
  match v with
  | VUndefined | VNull => false
  | VBoolean b => b
  | VNumber n => negb (is_zero n || is_nan n)
  | VString s => negb (bool_decide (s = []))
  end.

(** [Number(v)]. *)
Definition Number (v : value) : float :=
  match v with
  | VUndefined => nan
  | VNull => 0%float
  | VBoolean b => if b then 1%float else 0%float
  | VNumber n => n
  | VString s => StringToNumber s
  end.

(** [a === b]. *)
Definition strict_equals (a b : value) : bool :=
  match a, b with
  | VUndefined, VUndefined | VNull, VNull => true
  | VBoolean x, VBoolean y => Bool.eqb x y
  | VNumber x, VNumber y => (x =? y)%float
  | VString x, VString y => bool_decide (x = y)
  | _, _ => false
  end.

(** [a || b] on numbers. *)
Definition number_or (a b : float) : float :=
  if ToBoolean (VNumber a) then a else b.

(** ** Objects, arrays and the heap *)

(** A rule object: its own properties, by name.  The properties of a
    rule are written by [mapRowToRule] before the object is stored and
    no code writes to a rule afterwards, so rules are values. *)
Abbreviation Rule := (gmap js_string value).

(** [o.k]: the property, or [undefined] when the object has none (the
    program reads no name that [Object.prototype] defines). *)
Definition get (o : Rule) (k : js_string) : value :=
  default VUndefined (o !! k).

(** [o[k] = v] for a string or a number [v], on an object made by an
    object literal: [o] gets the property or a new value for it.  The
    name [__proto__] is the exception: [Object.prototype] defines it
    with a setter, which is called instead and does nothing for a value
    that is no object, so that [o] gets no property. *)
Definition set_property (o : Rule) (k : js_string) (v : value) : Rule :=
  if bool_decide (k = str "__proto__") then o else <[k := v]> o.

(** What [JSON.stringify] keeps of a property value: a property whose
    value is [undefined] is left out, a number that is not finite is
    written [null], and [-0] is written [0]. *)
Definition json_property (v : value) : option value :=
  match v with
  | VUndefined => None
  | VNumber n =>
      Some (if is_finite n then
              if is_zero n then VNumber 0%float else VNumber n
            else VNull)
  | _ => Some v
  end.

(** The JSON object that a client reads when [res.json] is given an
    object literal with the properties [fields]. *)
Definition json_object (fields : list (js_string * value)) : Rule :=
  foldr (fun field o =>
           match json_property field.2 with
           | Some v => <[field.1 := v]> o
           | None => o
           end) ∅ fields.

(** Arrays are objects with identity: a location names one. *)
Definition loc := positive.

(** The state of the two modules.
    - [heap]: the array objects, by location;
    - [loader_rules]: the variable [let rules] of [loadRules.js];
    - [engine_rules]: the constant [rules] of [ruleEngine.js], bound by
      [const { rules } = require('./loadRules')] to the array that
      [module.exports] of [loadRules.js] holds. *)
Record state := State {
  heap : gmap loc (list Rule);
  loader_rules : loc;
  engine_rules : loc
}.

(** After both modules are loaded: one empty array, known to both. *)
Definition initial_state : state :=
  State {[ 1%positive := [] ]} 1%positive 1%positive.

(** How a call ends. *)
Inductive completion (A : Type) :=
  | Return (a : A)
  | Throw (message : string).
Arguments Return {A} a.
Arguments Throw {A} message.

(** Computations that read and write the state and may throw. *)
Definition M (A : Type) : Type := state -> completion A * state.

Definition ret {A} (a : A) : M A := fun st => (Return a, st).

Definition throw {A} (message : string) : M A :=
  fun st => (Throw message, st).

Definition bind {A B} (c : M A) (k : A -> M B) : M B :=
  fun st =>
    match c st with
    | (Return a, st') => k a st'
    | (Throw message, st') => (Throw message, st')
    end.

Notation "'do' x <- c1 ; c2" := (bind c1 (fun x => c2))
  (at level 10, x name, c1 at level 100, c2 at level 200).

(** A call that has already ended (a settled promise, awaited). *)
Definition lift {A} (c : completion A) : M A := fun st => (c, st).

(** A new array object holding [a]. *)
Definition new_array (a : list Rule) : M loc :=
  fun st =>
    let l := fresh (dom (heap st)) in
    (Return l,
     State (<[l := a]> (heap st)) (loader_rules st) (engine_rules st)).

(** The elements of the array at [l]; [None] when [l] is no array. *)
Definition read_array (l : loc) : M (option (list Rule)) :=
  fun st => (Return (heap st !! l), st).

(** The elements of the array at [l], for a method call on it. *)
Definition elements (l : loc) : M (list Rule) :=
  do a <- read_array l;
  match a with
  | Some xs => ret xs
  | None => throw "TypeError: not an array"
  end.

Definition write_array (l : loc) (xs : list Rule) : M unit :=
  fun st =>
    (Return tt,
     State (<[l := xs]> (heap st)) (loader_rules st) (engine_rules st)).

(** Reading and assigning the variable [rules] of [loadRules.js], and
    reading the constant [rules] of [ruleEngine.js]. *)
Definition read_loader_rules : M loc :=
  fun st => (Return (loader_rules st), st).

Definition assign_loader_rules (l : loc) : M unit :=
  fun st => (Return tt, State (heap st) l (engine_rules st)).

Definition read_engine_rules : M loc :=
  fun st => (Return (engine_rules st), st).

(** [a.slice()]. *)
Definition array_slice (l : loc) : M loc :=
  do xs <- elements l; new_array xs.

(** [a.filter(f)]: a new array. *)
Definition array_filter (f : Rule -> bool) (l : loc) : M loc :=
  do xs <- elements l; new_array (List.filter f xs).

(** [a.length]. *)
Definition array_length (l : loc) : M nat :=
  do xs <- elements l; ret (length xs).

(** [a.length = n], for [n] within the length: the array is cut. *)
Definition array_set_length (l : loc) (n : nat) : M unit :=
  do xs <- elements l; write_array l (take n xs).

(** [a.push(...items)].  The items are spread into the arguments of one
    call, and an engine takes only so many arguments in a call: with
    more than [limit] items the call throws a [RangeError] and nothing
    is pushed. *)
Definition array_push (limit : N) (l : loc) (items : list Rule) : M unit :=
  do xs <- elements l;
  if (N.of_nat (length items) <=? limit)%N then write_array l (xs ++ items)
  else throw "RangeError: Maximum call stack size exceeded".

(** What an expression that names a rule may evaluate to. *)
Inductive selected :=
  | SNull
  | SUndefined
  | SRule (r : Rule).

(** [a[i]]. *)
Definition array_get (l : loc) (i : nat) : M selected :=
  do xs <- elements l;
  ret (match xs !! i with Some r => SRule r | None => SUndefined end).

(** [Array.prototype.sort(compareFn)] sorts in place and is stable.  It
    reads the comparator's result [v] by its sign: [a] goes after [b]
    when [v > 0]; a result that is [NaN] counts as [0].  For a
    comparator that orders the elements consistently every stable sort
    gives the same array (see [stable_sort_unique] below); this one
    inserts each element into the sorted rest. *)
Fixpoint sort_insert {A} (compareFn : A -> A -> float) (a : A) (xs : list A)
  : list A :=
  match xs with
  | [] => [a]
  | b :: xs' =>
      if (0 <? compareFn a b)%float then b :: sort_insert compareFn a xs'
      else a :: xs
  end.

Fixpoint sorted_by {A} (compareFn : A -> A -> float) (xs : list A) : list A :=
  match xs with
  | [] => []
  | a :: xs' => sort_insert compareFn a (sorted_by compareFn xs')
  end.

Definition array_sort (compareFn : Rule -> Rule -> float) (l : loc) : M unit :=
  do xs <- elements l; write_array l (sorted_by compareFn xs).

(** ** [loadRules.js] *)

(** A row of the sheet: its cells, which the Sheets API gives as
    strings. *)
Definition row := list js_string.

(** What one load cycle meets:
    - [client]: whether [createSheetsClient] returns or throws (the
      credentials are unset, unreadable or no JSON);
    - [fetch]: how the promise of [sheets.spreadsheets.values.get]
      settles: rejected, or resolved with [response.data.values], which
      is absent for an empty sheet;
    - [max_arguments]: how many arguments the engine takes in one call
      at the time of the cycle.  The language sets no bound; an engine
      has one, which depends on the stack space that is left. *)
Record source := Source {
  client : completion unit;
  fetch : completion (option (list row));
  max_arguments : N
}.

Definition createSheetsClient (src : source) : M unit := lift (client src).

Definition spreadsheets_values_get (src : source) : M (option (list row)) :=
  lift (fetch src).

(** The body of the [forEach] callback of [mapRowToRule], for the header
    at [index]. *)
Definition mapRowToRule_step (cells : row) (rule : Rule) (index : nat)
    (header : js_string) : Rule :=
  let key := trim header in
  if bool_decide (key = []) then rule
  else
    let value :=
      match cells !! index with
      | Some cell => trim cell
      | None => []
      end in
    if bool_decide (key = str "priority") then
      let numericPriority := StringToNumber value in
      set_property rule key
        (VNumber (if Number_isFinite numericPriority
                  then numericPriority else 0%float))
    else set_property rule key (VString value).

(** [headers.forEach((header, index) => ...)], from [index] on. *)
Fixpoint mapRowToRule_from (index : nat) (headers : row) (cells : row)
    (rule : Rule) : Rule :=
  match headers with
  | [] => rule
  | header :: headers' =>
      mapRowToRule_from (S index) headers' cells
        (mapRowToRule_step cells rule index header)
  end.

Definition mapRowToRule (headers : row) (cells : row) : Rule :=
  mapRowToRule_from 0 headers cells ∅.

(** The header row as [loadRules] reads it: every cell trimmed, and the
    first column named [rule_id] whatever its label. *)
Definition normalize_headers (header : row) : row :=
  let headers := trim <$> header in
  match headers with
  | h :: headers' =>
      if bool_decide (h ≠ str "rule_id") then str "rule_id" :: headers'
      else headers
  | [] => headers
  end.

(** The value of [loadedRules]: the rows that have cells, each mapped to
    a rule, and of these the rules whose [rule_id] is truthy. *)
Definition loadedRules (headers : row) (dataRows : list row) : list Rule :=
  List.filter (fun rule => ToBoolean (get rule (str "rule_id")))
    (mapRowToRule headers <$>
       List.filter (fun cells : row => bool_decide (0 < length cells))
         dataRows).

(** [loadRules()], given what the cycle meets.  It returns the array that
    its variable [rules] names.  The array is emptied before the rules
    are pushed, so that a push that throws leaves it empty. *)
Definition loadRules (src : source) : M loc :=
  do _ <- createSheetsClient src;
  do values <- spreadsheets_values_get src;
  let rows := default [] values in
  match rows with
  | [] =>
      do empty <- new_array [];
      do _ <- assign_loader_rules empty;
      read_loader_rules
  | header :: dataRows =>
      let headers := normalize_headers header in
      do rules <- read_loader_rules;
      do _ <- array_set_length rules 0;
      do rules <- read_loader_rules;
      do _ <- array_push (max_arguments src) rules
                (loadedRules headers dataRows);
      read_loader_rules
  end.

(** ** [ruleEngine.js] *)

(** The four attributes read from the input object; an attribute that
    the object lacks is [undefined]. *)
Record query := Query {
  usage : value;
  audience : value;
  density : value;
  tone : value
}.

(** [Number(a.priority) || 0]. *)
Definition priority_of (r : Rule) : float :=
  number_or (Number (get r (str "priority"))) 0%float.

(** The comparator given to [sort]. *)
Definition by_priority (a b : Rule) : float :=
  let pa := priority_of a in
  let pb := priority_of b in
  (pb - pa)%float.

(** [selectRule(input)].  [None] is a falsy input ([undefined], [null]);
    [Some q] is an input object, [q] holding what its properties
    [usage], [audience], [density] and [tone] evaluate to. *)
Definition selectRule (input : option query) : M selected :=
  match input with
  | None => throw "selectRule requires an input object."
  | Some q =>
      do rules <- read_engine_rules;
      do array <- read_array rules;
      do candidates <-
        match array with
        | Some _ => array_slice rules
        | None => new_array []
        end;
      do candidates <- array_filter
        (fun rule => strict_equals (get rule (str "usage")) (usage q))
        candidates;
      do candidates <- array_filter
        (fun rule => strict_equals (get rule (str "audience")) (audience q))
        candidates;
      do candidates <- array_filter
        (fun rule => strict_equals (get rule (str "density")) (density q))
        candidates;
      do candidates <- array_filter
        (fun rule => strict_equals (get rule (str "tone")) (tone q))
        candidates;
      do n <- array_length candidates;
      if bool_decide (n = 0) then
        do source_array <-
          match array with
          | Some _ => ret rules
          | None => new_array []
          end;
        do fallbackCandidates <- array_filter
          (fun rule =>
             (Number (get rule (str "priority")) =? 100)%float)
          source_array;
        do m <- array_length fallbackCandidates;
        if bool_decide (m = 0) then ret SNull
        else array_get fallbackCandidates 0
      else
        do _ <- array_sort by_priority candidates;
        array_get candidates 0
  end.

(** ** [server.js] *)

(** What the handler sends: a status and the JSON object that the
    client reads. *)
Record response := Response {
  status : nat;
  body : Rule
}.

Definition missing_rule_message : js_string :=
  str ("No matching rule found and no system fallback rule "
       ++ "(priority=100) is defined.").

(** The handler of [POST /tti/decide-font]; [None] is a request without
    a body. *)
Definition decide_font (req_body : option query) : M response :=
  let q :=
    default (Query VUndefined VUndefined VUndefined VUndefined) req_body in
  if negb (ToBoolean (usage q)) || negb (ToBoolean (audience q))
     || negb (ToBoolean (density q)) || negb (ToBoolean (tone q)) then
    ret (Response 400
           (json_object
              [(str "error",
                VString
                  (str "Missing required fields: usage, audience, density, tone"))]))
  else
    do rule <- selectRule (Some q);
    match rule with
    | SRule r =>
        let rule_id := get r (str "rule_id") in
        let font_style := get r (str "font_style") in
        let weight := get r (str "weight") in
        let spacing := get r (str "spacing") in
        ret (Response 200
               (json_object
                  [(str "rule_id", rule_id); (str "font_style", font_style);
                   (str "weight", weight); (str "spacing", spacing)]))
    | SNull | SUndefined =>
        ret (Response 404
               (json_object [(str "error", VString missing_rule_message)]))
    end.

(** One tick of the [setInterval] timer in [start]: the rules are loaded
    again; the rejection of a failed load is caught and logged. *)
Definition reload (src : source) (st : state) : state :=
  match loadRules src st with
  | (Return _, st') => st'
  | (Throw _, st') => st'
  end.

(** ** Histories *)

(** What happens to the two modules after start-up. *)
Inductive event :=
  | Load (src : source)
  | Select (input : option query)
  | Request (req_body : option query).

Definition step (st : state) (e : event) : state :=
  match e with
  | Load src => reload src st
  | Select input => snd (selectRule input st)
  | Request req_body => snd (decide_font req_body st)
  end.

Definition run (es : list event) (st : state) : state := foldl step st es.

(** The array that [selectRule] reads. *)
Definition snapshot (st : state) : list Rule :=
  default [] (heap st !! engine_rules st).

(** The array that [loadRules] fills and returns. *)
Definition loaded (st : state) : list Rule :=
  default [] (heap st !! loader_rules st).

(** ** Notions used to state and prove the properties *)

(** The rule has the four attributes of the query. *)
Definition matches (q : query) (r : Rule) : bool :=
  strict_equals (get r (str "usage")) (usage q)
  && strict_equals (get r (str "audience")) (audience q)
  && strict_equals (get r (str "density")) (density q)
  && strict_equals (get r (str "tone")) (tone q).

(** The rule's priority is 100, as the fallback filter tests it. *)
Definition is_fallback (r : Rule) : bool :=
  (Number (get r (str "priority")) =? 100)%float.

(** The priority of a rule as the specification reads it: the number
    in its [priority], and 0 when that is no number.  It is defined
    apart from the comparator of [selectRule]. *)
Definition priority_number (r : Rule) : float :=
  let n := Number (get r (str "priority")) in
  if is_nan n then 0%float else n.

(** What [selectRule] returns for the query [q] when the array it reads
    holds [rules]. *)
Definition choose (q : query) (rules : list Rule) : selected :=
  match List.filter (matches q) rules with
  | [] =>
      match List.filter is_fallback rules with
      | [] => SNull
      | r :: _ => SRule r
      end
  | candidates =>
      match sorted_by by_priority candidates with
      | r :: _ => SRule r
      | [] => SUndefined
      end
  end.

(** Both modules name an array of the heap. *)
Definition well_formed (st : state) : Prop :=
  is_Some (heap st !! loader_rules st) /\ is_Some (heap st !! engine_rules st).

(** The rule has a non-empty string as its [rule_id]. *)
Definition has_rule_id (r : Rule) : Prop :=
  exists s, r !! str "rule_id" = Some (VString s) /\ s <> [].

(** The trimmed text of the cell at [index]; empty when the row is
    shorter. *)
Definition cell_text (cells : row) (index : nat) : js_string :=
  match cells !! index with
  | Some cell => trim cell
  | None => []
  end.

(** What [mapRowToRule] stores under [key] for the cell text [text]. *)
Definition field_value (key text : js_string) : value :=
  if bool_decide (key = str "priority") then
    VNumber (if Number_isFinite (StringToNumber text)
             then StringToNumber text else 0%float)
  else VString text.

(** The index of the last header, counted from [index], whose trimmed
    name is [key]. *)
Fixpoint last_column (key : js_string) (index : nat) (headers : row)
  : option nat :=
  match headers with
  | [] => None
  | header :: headers' =>
      match last_column key (S index) headers' with
      | Some i => Some i
      | None => if bool_decide (trim header = key) then Some index else None
      end
  end.

(** The name of the column at [index] of a sheet, by the label in its
    header row: the first column is [rule_id] whatever its label, every
    other column has its trimmed label. *)
Definition column_name (index : nat) (label : js_string) : js_string :=
  match index with
  | 0 => str "rule_id"
  | S _ => trim label
  end.

(** The index of the last column of the header row [header], counted
    from [index], that has the name [key]. *)
Fixpoint last_named (key : js_string) (index : nat) (header : row)
  : option nat :=
  match header with
  | [] => None
  | label :: header' =>
      match last_named key (S index) header' with
      | Some i => Some i
      | None =>
          if bool_decide (column_name index label = key) then Some index
          else None
      end
  end.

(** The text of a row under [rule_id]. *)
Definition rule_id_of (header cells : row) : js_string :=
  default [] (cell_text cells <$> last_named (str "rule_id") 0 header).

(** The rows that become rules: those with a cell and a text under
    [rule_id]. *)
Definition is_kept (header cells : row) : bool :=
  bool_decide (0 < length cells)
  && negb (bool_decide (rule_id_of header cells = [])).

(** [rule] is the rule of the row [cells] in a sheet with the header row
    [header]: it has one property for each column name, holding the
    text of the row in the last column of that name (under [priority],
    the number read from it), and no other property.  An empty name
    gives no property, and neither does the name [__proto__]. *)
Definition is_rule_of (header cells : row) (rule : Rule) : Prop :=
  forall key,
    rule !! key
    = if bool_decide (key = [] \/ key = str "__proto__") then None
      else (fun i => field_value key (cell_text cells i))
             <$> last_named key 0 header.

(** What every history keeps: both modules name an array, and every rule
    of either array has a [rule_id]. *)
Definition invariant (st : state) : Prop :=
  well_formed st
  /\ Forall has_rule_id (snapshot st)
  /\ Forall has_rule_id (loaded st).

(** The text under [rule_id] in a row: the cell of the last column of
    that name. *)
Definition rule_id_text (headers cells : row) : js_string :=
  match last_column (str "rule_id") 0 headers with
  | Some i => cell_text cells i
  | None => []
  end.

(** [st'] has every array of [st], unchanged, and the same variables. *)
Definition extends (st st' : state) : Prop :=
  heap st ⊆ heap st'
  /\ loader_rules st' = loader_rules st
  /\ engine_rules st' = engine_rules st.

(** [c] returns from [st], with a result and a state that satisfy [Q]. *)
Definition returns {A} (c : M A) (st : state) (Q : A -> state -> Prop) : Prop :=
  exists a st', c st = (Return a, st') /\ Q a st'.

(** [l] is an array made since [st0], holding [xs] in [st]. *)
Definition cell (st0 st : state) (l : loc) (xs : list Rule) : Prop :=
  extends st0 st /\ heap st !! l = Some xs /\ heap st0 !! l = None.

(** The place of a binary64 value on the integer line scaled by
    [2 ^ 1074]: every finite value is an integer multiple of
    [2 ^ -1074], and the infinities lie beyond all of them. *)
Definition beyond : Z := 2 ^ 2200.

Definition rank (x : spec_float) : Z :=
  match x with
  | S754_zero _ | S754_nan => 0
  | S754_infinity s => cond_Zopp s beyond
  | S754_finite s m e => cond_Zopp s (Zpos m * 2 ^ (e + 1074))
  end.

Definition float_rank (x : float) : Z := rank (Prim2SF x).

(** [v > 0], as [sort] tests the comparator's result. *)
Definition SFpositive (v : spec_float) : bool := SFltb (S754_zero false) v.

(** ** The example of the specification *)

Definition example_header : row :=
  str <$> ["rule_id"; "usage"; "audience"; "density"; "tone"; "font_style";
           "weight"; "spacing"; "priority"; "note"]%string.

Definition example_row_R1 : row :=
  str <$> ["R1"; "print"; "teen"; "high"; "friendly"; "A"; "400"; "normal";
           "10"; ""]%string.

Definition example_row_SYS : row :=
  str <$> ["SYS"; ""; ""; ""; ""; "Fallback"; ""; ""; "100"]%string.

Definition example_rows : list row := [example_row_R1; example_row_SYS].

(** The number of arguments that a call takes in the examples: about
    what fits a stack of one megabyte. *)
Definition example_max_arguments : N := 125730.

Definition example_source : source :=
  Source (Return tt) (Return (Some (example_header :: example_rows)))
    example_max_arguments.

Definition example_R1 : Rule := mapRowToRule example_header example_row_R1.

Definition example_SYS : Rule := mapRowToRule example_header example_row_SYS.

Definition example_rules : list Rule := [example_R1; example_SYS].

(** The store after the first load. *)
Definition example_state : state := reload example_source initial_state.

Definition example_query : query :=
  Query (VString (str "print")) (VString (str "teen"))
    (VString (str "high")) (VString (str "friendly")).

Definition other_query : query :=
  Query (VString (str "web")) (VString (str "adult"))
    (VString (str "low")) (VString (str "formal")).

(** A cycle in which the request to the source is rejected, and one in
    which the sheet is empty. *)
Definition unavailable_source : source :=
  Source (Return tt) (Throw "The service is currently unavailable.")
    example_max_arguments.

Definition empty_source : source :=
  Source (Return tt) (Return None) example_max_arguments.

(** The store when the sheet has no row of priority 100. *)
Definition state_without_fallback : state :=
  reload (Source (Return tt) (Return (Some [example_header; example_row_R1]))
            example_max_arguments)
    initial_state.

(** A sheet in which three rows match the query of the example: [R1] of
    priority 10, then [R2] and [R3] of priority 20. *)
Definition example_row_R2 : row :=
  str <$> ["R2"; "print"; "teen"; "high"; "friendly"; "B"; "700"; "wide";
           "20"; ""]%string.

Definition example_row_R3 : row :=
  str <$> ["R3"; "print"; "teen"; "high"; "friendly"; "C"; "300"; "tight";
           "20"; ""]%string.

Definition ranked_source : source :=
  Source (Return tt)
    (Return (Some [example_header; example_row_R1; example_row_R2;
                   example_row_R3; example_row_SYS]))
    example_max_arguments.

Definition ranked_state : state := reload ranked_source initial_state.

(** A sheet with a row without cells and a row without [rule_id]
    between the two rows of the example. *)
Definition mixed_rows : list row :=
  [example_row_R1; []; str <$> [" "; "web"]%string; example_row_SYS].

Definition mixed_source : source :=
  Source (Return tt) (Return (Some (example_header :: mixed_rows)))
    example_max_arguments.

(** A sheet of one column with more rows than a call takes arguments. *)
Definition large_rows : list row := replicate (N.to_nat 125731) [str "R"].

Definition large_source : source :=
  Source (Return tt) (Return (Some ([str "rule_id"] :: large_rows)))
    example_max_arguments.

(** A sheet that has the four attributes of a rule and none of the
    columns that a response shows, but [rule_id]. *)
Definition bare_source : source :=
  Source (Return tt)
    (Return (Some [str <$> ["rule_id"; "usage"; "audience"; "density";
                            "tone"]%string;
                   str <$> ["R1"; "print"; "teen"; "high";
                            "friendly"]%string]))
    example_max_arguments.

Definition bare_state : state := reload bare_source initial_state.

(** A sheet with a column named [__proto__]. *)
Definition proto_header : row := str <$> ["rule_id"; "__proto__"]%string.

Definition proto_row : row := str <$> ["R1"; "x"]%string.

(** ** Start-up and the command-line entry *)

(** What has become of the process when [start] ends. *)
Inductive process :=
  | Listening (st : state)
  | Exited (code : nat).

(** [start()] of [server.js]: the rules are loaded once, and then
    [app.listen] is called, in the same [try] block; [listen] is how
    that call ends (it throws for a port that is no port).  When the
    load or the call throws, the process exits with code 1; otherwise
    the server has been told to listen, and its callback sets the timer
    (the ticks are the later [Load] events). *)
Definition start (src : source) (listen : completion unit) (st : state)
  : process :=
  match loadRules src st with
  | (Return _, st') =>
      match listen with
      | Return _ => Listening st'
      | Throw _ => Exited 1
      end
  | (Throw _, _) => Exited 1
  end.

(** What [main()] of [index.js] does after the load: it prints the
    number of rules, or exits. *)
Inductive report :=
  | Printed (count : nat)
  | Failed (code : nat).

(** [main()] of [index.js], run directly.  The count it prints is
    [rules.length] of the array that [index.js] bound when it required
    [loadRules.js], the array that [ruleEngine.js] holds too. *)
Definition main (src : source) (st : state) : report * state :=
  match loadRules src st with
  | (Return _, st') => (Printed (length (snapshot st')), st')
  | (Throw _, st') => (Failed 1, st')
  end.

(** ** Notions used to state the further properties *)

(** The cycle succeeds and finds no row. *)
Definition finds_no_row (src : source) : bool :=
  match client src, fetch src with
  | Return _, Return values => bool_decide (default [] values = [])
  | _, _ => false
  end.

(** The cycle fails: the client cannot be made or the request is
    rejected. *)
Definition fails (src : source) : bool :=
  match client src, fetch src with
  | Return _, Return _ => false
  | _, _ => true
  end.

Definition is_load (e : event) : bool :=
  match e with
  | Load _ => true
  | _ => false
  end.

(** A load that finds no row. *)
Definition is_empty_load (e : event) : bool :=
  match e with
  | Load src => finds_no_row src
  | _ => false
  end.

(** The four attributes of the request are all truthy. *)
Definition complete (q : query) : bool :=
  ToBoolean (usage q) && ToBoolean (audience q)
  && ToBoolean (density q) && ToBoolean (tone q).

(** The query that the handler reads from a request body. *)
Definition query_of (req_body : option query) : query :=
  default (Query VUndefined VUndefined VUndefined VUndefined) req_body.

(** The properties of a rule that a response shows. *)
Definition output_fields : list js_string :=
  [str "rule_id"; str "font_style"; str "weight"; str "spacing"].

(** The text is made of decimal digits only. *)
Definition all_digits (s : js_string) : bool := forallb is_digit s.

(** What the handler answers to a request when the array that
    [selectRule] reads holds [rules]. *)
Definition response_for (req_body : option query) (rules : list Rule)
  : response :=
  let q := query_of req_body in
  if complete q then
    match choose q rules with
    | SRule r =>
        Response 200
          (json_object
             [(str "rule_id", get r (str "rule_id"));
              (str "font_style", get r (str "font_style"));
              (str "weight", get r (str "weight"));
              (str "spacing", get r (str "spacing"))])
    | SNull | SUndefined =>
        Response 404
          (json_object [(str "error", VString missing_rule_message)])
    end
  else
    Response 400
      (json_object
         [(str "error",
           VString
             (str "Missing required fields: usage, audience, density, tone"))]).

(** The rule is the rule of a row of a sheet. *)
Definition from_row (r : Rule) : Prop :=
  exists headers cells, r = mapRowToRule headers cells.

(** Both modules name an array, and every rule of either array is the
    rule of a row. *)
Definition rules_from_rows (st : state) : Prop :=
  well_formed st
  /\ Forall from_row (snapshot st)
  /\ Forall from_row (loaded st).

(** The text does not begin with white space. *)
Definition starts_clean (s : js_string) : Prop :=
  match s with
  | c :: _ => is_white_space c = false
  | [] => True
  end.

(** The rules that a response holds: those of its data rows, read with
    its header row. *)
Definition rules_of (values : option (list row)) : list Rule :=
  match default [] values with
  | [] => []
  | header :: dataRows => loadedRules (normalize_headers header) dataRows
  end.

(** The cycle finds more rules than a call takes arguments. *)
Definition overflows (src : source) : bool :=
  match client src, fetch src with
  | Return _, Return values =>
      negb (N.of_nat (length (rules_of values)) <=? max_arguments src)%N
  | _, _ => false
  end.

(** The state when the array that [loadRules] fills has been emptied. *)
Definition emptied (st : state) : state :=
  State (<[loader_rules st := []]> (heap st)) (loader_rules st)
    (engine_rules st).

(** A cycle that finds the first row of the example only. *)
Definition smaller_source : source :=
  Source (Return tt) (Return (Some [example_header; example_row_R1]))
    example_max_arguments.

(** A cell text that is a whole number written in digits only, below
    [2 ^ 53]: every such number is a value of [Number]. *)
Definition is_whole_text (s : js_string) : bool :=
  negb (bool_decide (s = [])) && all_digits s
  && (digits_value s <? 2 ^ 53)%Z.


(** * The model on concrete inputs *)

Example trim_both_ends : trim (str "  ab c  ") = str "ab c".
Proof. reflexivity. Qed.

Example number_of_integer_text : StringToNumber (str "100") = 100%float.
Proof. vm_compute. reflexivity. Qed.

Example number_of_decimal_text : StringToNumber (str " 10.5 ") = 10.5%float.
Proof. vm_compute. reflexivity. Qed.

Example number_of_rounded_text :
  StringToNumber (str "0.1") = 0x1.999999999999ap-4%float.
Proof. vm_compute. reflexivity. Qed.

Example number_of_hexadecimal_text : StringToNumber (str "0x1F") = 31%float.
Proof. vm_compute. reflexivity. Qed.

Example number_of_empty_text : StringToNumber [] = 0%float.
Proof. reflexivity. Qed.

Example number_of_other_text : StringToNumber (str "abc") = nan.
Proof. vm_compute. reflexivity. Qed.

Example number_of_large_text : StringToNumber (str "1e400") = infinity.
Proof. vm_compute. reflexivity. Qed.

Example priority_of_large_text :
  get (mapRowToRule (str <$> ["rule_id"; "priority"]%string)
         (str <$> ["R1"; "1e400"]%string))
      (str "priority")
  = VNumber 0%float.
Proof. vm_compute. reflexivity. Qed.

(** The example of the specification: the first query selects [R1], the
    second falls back to [SYS], and without [SYS] gets [null]. *)
Example example_first_query :
  fst (selectRule (Some example_query) example_state)
  = Return (SRule example_R1).
Proof. vm_compute. reflexivity. Qed.

Example example_second_query :
  fst (selectRule (Some other_query) example_state)
  = Return (SRule example_SYS).
Proof. vm_compute. reflexivity. Qed.

Example example_second_query_without_fallback :
  fst (selectRule (Some other_query) state_without_fallback) = Return SNull.
Proof. vm_compute. reflexivity. Qed.

Example example_request :
  fst (decide_font (Some example_query) example_state)
  = Return (Response 200
              (<[str "rule_id" := VString (str "R1")]>
                 (<[str "font_style" := VString (str "A")]>
                    (<[str "weight" := VString (str "400")]>
                       (<[str "spacing" := VString (str "normal")]> ∅))))).
Proof. vm_compute. reflexivity. Qed.

(** Of three matching rules of priorities 10, 20 and 20 the second is
    selected. *)
Example ranked_first_query :
  fst (selectRule (Some example_query) ranked_state)
  = Return (SRule (mapRowToRule example_header example_row_R2)).
Proof. vm_compute. reflexivity. Qed.

(** A column named [__proto__] gives the rule no property. *)
Example proto_column_gives_no_property :
  mapRowToRule proto_header proto_row
  = mapRowToRule [str "rule_id"] [str "R1"]
  /\ mapRowToRule proto_header proto_row !! str "__proto__" = None.
Proof. split; vm_compute; reflexivity. Qed.

(** A response shows only the properties that the rule has. *)
Example response_without_output_columns :
  fst (decide_font (Some example_query) bare_state)
  = Return (Response 200 (<[str "rule_id" := VString (str "R1")]> ∅)).
Proof. vm_compute. reflexivity. Qed.

(** A number that is not finite is sent as [null], and [-0] as [0]. *)
Example json_of_numbers :
  json_property (VNumber infinity) = Some VNull
  /\ json_property (VNumber (-0)%float) = Some (VNumber 0%float)
  /\ json_property VUndefined = None.
Proof. repeat split; vm_compute; reflexivity. Qed.

(** Once a load has found the sheet empty, the rules of later loads go
    to the new array, which [selectRule] does not read. *)
Example load_after_empty_load :
  loaded (run [Load empty_source; Load example_source] initial_state)
  = example_rules
  /\ snapshot (run [Load empty_source; Load example_source] initial_state)
     = [].
Proof. split; vm_compute; reflexivity. Qed.

(** * Binary64 order and the sign of a difference *)

Section Binary64.
Local Open Scope Z_scope.

Lemma digits2_pos_bounds (m : positive) :
  2 ^ (Zpos (digits2_pos m) - 1) <= Zpos m < 2 ^ Zpos (digits2_pos m).
Proof.
  induction m as [m IH | m IH |]; simpl digits2_pos.
  1-2: rewrite Pos2Z.inj_succ;
    replace (Z.succ (Zpos (digits2_pos m)) - 1)
      with (Z.succ (Zpos (digits2_pos m) - 1)) by lia;
    rewrite !Z.pow_succ_r by lia; lia.
  simpl. lia.
Qed.

Lemma shr_1_m (r : shr_record) :
  0 <= shr_m r -> shr_m (shr_1 r) = shr_m r / 2.
Proof.
  destruct r as [m b s]. simpl. intros Hm.
  destruct m as [| [p | p |] |]; simpl shr_m; try lia; try reflexivity.
  - apply Z.div_unique with 1; lia.
  - apply Z.div_unique with 0; lia.
Qed.

Lemma iter_pos_shr_1_m (p : positive) (r : shr_record) :
  0 <= shr_m r ->
  shr_m (SpecFloat.iter_pos shr_1 p r) = shr_m r / 2 ^ Zpos p.
Proof.
  revert r.
  induction p as [p IH | p IH |]; intros r Hr; simpl SpecFloat.iter_pos.
  - assert (H1 : 0 <= shr_m (shr_1 r))
      by (rewrite shr_1_m by done; apply Z.div_pos; lia).
    assert (H2 : 0 <= shr_m (SpecFloat.iter_pos shr_1 p (shr_1 r)))
      by (rewrite IH by done; apply Z.div_pos; lia).
    rewrite IH, IH, shr_1_m by done.
    rewrite !Z.div_div by lia. f_equal.
    rewrite Pos2Z.inj_xI, Z.pow_add_r, Z.pow_mul_r by lia.
    change (2 ^ 2) with 4.
    replace (4 ^ Zpos p) with (2 ^ Zpos p * 2 ^ Zpos p); [ring |].
    rewrite <- Z.pow_add_r by lia.
    replace (Zpos p + Zpos p) with (2 * Zpos p) by lia.
    rewrite Z.pow_mul_r by lia. reflexivity.
  - assert (H2 : 0 <= shr_m (SpecFloat.iter_pos shr_1 p r))
      by (rewrite IH by done; apply Z.div_pos; lia).
    rewrite IH, IH by done.
    rewrite !Z.div_div by lia. f_equal.
    rewrite Pos2Z.inj_xO. rewrite <- Z.pow_add_r by lia. f_equal. lia.
  - rewrite shr_1_m by done. reflexivity.
Qed.

Lemma shr_fexp_pos (m e : Z) (l : location) :
  0 < m -> -1074 <= e ->
  0 < shr_m (fst (shr_fexp prec emax m e l))
  /\ -1074 <= snd (shr_fexp prec emax m e l).
Proof.
  intros Hm He. unfold shr_fexp, shr.
  assert (Hrec : shr_m (shr_record_of_loc m l) = m)
    by (destruct l as [| []]; reflexivity).
  destruct m as [| m |]; try lia. simpl Zdigits2.
  pose proof (digits2_pos_bounds m) as [Hlo _].
  unfold fexp, SpecFloat.emin, prec, emax.
  destruct (Z.max (Zpos (digits2_pos m) + e - 53) (3 - 1024 - 53) - e)
    as [| p |] eqn:Hn; simpl fst; simpl snd; rewrite ?Hrec; try lia.
  rewrite iter_pos_shr_1_m by (rewrite Hrec; lia). rewrite Hrec.
  split; [| lia].
  apply Z.div_str_pos. split; [lia |].
  transitivity (2 ^ (Zpos (digits2_pos m) - 1)); [| exact Hlo].
  apply Z.pow_le_mono_r; lia.
Qed.

Lemma round_nearest_even_ge (m : Z) (l : location) :
  m <= round_nearest_even m l.
Proof.
  destruct l as [| []]; simpl; try lia. destruct (Z.even m); lia.
Qed.

(** Rounding a non-zero value whose exponent is in range keeps it away
    from zero, on its side of it. *)
Lemma binary_round_aux_sign (s : bool) (m e : Z) (l : location) :
  0 < m -> -1074 <= e ->
  (exists m' e', binary_round_aux prec emax s m e l = S754_finite s m' e')
  \/ binary_round_aux prec emax s m e l = S754_infinity s.
Proof.
  intros Hm He. unfold binary_round_aux.
  destruct (shr_fexp_pos m e l Hm He) as [H1 H1'].
  destruct (shr_fexp prec emax m e l) as [mrs' e'] eqn:E1. simpl in H1, H1'.
  pose proof (round_nearest_even_ge (shr_m mrs') (loc_of_shr_record mrs')) as Hr.
  destruct (shr_fexp_pos (round_nearest_even (shr_m mrs') (loc_of_shr_record mrs'))
              e' loc_Exact ltac:(lia) H1') as [H2 _].
  destruct (shr_fexp prec emax _ e' loc_Exact) as [mrs'' e''] eqn:E2. simpl in H2.
  destruct (shr_m mrs'') as [| p |]; try lia.
  destruct (e'' <=? emax - prec); eauto.
Qed.

Lemma Pos_iter_xO (m d : positive) :
  Zpos (Pos.iter xO m d) = Zpos m * 2 ^ Zpos d.
Proof.
  induction d as [| d IH] using Pos.peano_ind.
  - simpl. lia.
  - rewrite Pos.iter_succ, Pos2Z.inj_xO, IH, Pos2Z.inj_succ, Z.pow_succ_r by lia.
    ring.
Qed.

Lemma shl_align_value (m : positive) (e e' : Z) :
  e' <= e -> Zpos (fst (shl_align m e e')) = Zpos m * 2 ^ (e - e').
Proof.
  intros He. unfold shl_align.
  destruct (e' - e) as [| d | d] eqn:Hd; simpl fst; try lia.
  - replace (e - e') with 0 by lia. simpl. lia.
  - rewrite Pos_iter_xO. f_equal. f_equal. lia.
Qed.

Lemma shl_align_exponent (m : positive) (e e' : Z) :
  snd (shl_align m e e') = Z.min e e'.
Proof.
  unfold shl_align. destruct (e' - e) as [| d | d] eqn:Hd; simpl; lia.
Qed.

Lemma binary_round_sign (s : bool) (m : positive) (e : Z) :
  -1074 <= e ->
  (exists m' e', binary_round prec emax s m e = S754_finite s m' e')
  \/ binary_round prec emax s m e = S754_infinity s.
Proof.
  intros He. unfold binary_round.
  pose proof (shl_align_exponent m e (fexp prec emax (Zpos (digits2_pos m) + e))) as Hs.
  destruct (shl_align m e _) as [mz ez]. simpl in Hs.
  apply binary_round_aux_sign; [lia |].
  subst ez. unfold fexp, SpecFloat.emin, prec, emax. lia.
Qed.

(** What [valid_binary] says of a finite value. *)
Lemma bounded_inv (m : positive) (e : Z) :
  bounded prec emax m e = true ->
  -1074 <= e <= 971 /\ Zpos m < 2 ^ 53 /\ (-1074 < e -> 2 ^ 52 <= Zpos m).
Proof.
  unfold bounded, canonical_mantissa, fexp, SpecFloat.emin, prec, emax.
  intros [Hc He]%andb_prop. apply Z.eqb_eq in Hc. apply Z.leb_le in He.
  pose proof (digits2_pos_bounds m) as [Hlo Hhi].
  split; [lia |]. split.
  - eapply Z.lt_le_trans; [exact Hhi |]. apply Z.pow_le_mono_r; lia.
  - intros Hlt. eapply Z.le_trans; [| exact Hlo]. apply Z.pow_le_mono_r; lia.
Qed.

Lemma pow2_pos (k : Z) : 0 <= k -> 0 < 2 ^ k.
Proof. intros. apply Z.pow_pos_nonneg; lia. Qed.

Lemma finite_rank_bounds (m : positive) (e : Z) :
  bounded prec emax m e = true ->
  0 < Zpos m * 2 ^ (e + 1074) < beyond.
Proof.
  intros (He & Hm & _)%bounded_inv.
  pose proof (pow2_pos (e + 1074) ltac:(lia)) as Hp.
  split; [lia |].
  assert (H1 : 2 ^ (e + 1074) <= 2 ^ 2045) by (apply Z.pow_le_mono_r; lia).
  assert (H2 : Zpos m * 2 ^ (e + 1074) < 2 ^ 53 * 2 ^ 2045) by nia.
  eapply Z.lt_le_trans; [exact H2 |]. unfold beyond.
  rewrite <- Z.pow_add_r by lia. apply Z.pow_le_mono_r; lia.
Qed.

(** Among valid values a smaller exponent means a smaller magnitude. *)
Lemma finite_rank_exponent (m1 m2 : positive) (e1 e2 : Z) :
  bounded prec emax m1 e1 = true -> bounded prec emax m2 e2 = true ->
  e1 < e2 ->
  Zpos m1 * 2 ^ (e1 + 1074) < Zpos m2 * 2 ^ (e2 + 1074).
Proof.
  intros (He1 & Hm1 & _)%bounded_inv (He2 & _ & Hm2)%bounded_inv Hlt.
  specialize (Hm2 ltac:(lia)).
  pose proof (pow2_pos (e1 + 1074) ltac:(lia)) as Hp.
  assert (H1 : Zpos m1 * 2 ^ (e1 + 1074) < 2 ^ 53 * 2 ^ (e1 + 1074)) by nia.
  assert (H2 : 2 ^ 53 * 2 ^ (e1 + 1074) <= 2 ^ 52 * 2 ^ (e2 + 1074)).
  { rewrite <- !Z.pow_add_r by lia. apply Z.pow_le_mono_r; lia. }
  pose proof (pow2_pos (e2 + 1074) ltac:(lia)) as Hp2.
  nia.
Qed.

Lemma Pos_compare_cont_Eq (m1 m2 : positive) :
  Pos.compare_cont Eq m1 m2 = (Zpos m1 ?= Zpos m2).
Proof. reflexivity. Qed.

Ltac compare_by_lia :=
  symmetry;
  first [ apply Z.compare_eq_iff; lia
        | apply Z.compare_lt_iff; lia
        | apply Z.compare_gt_iff; lia ].

Ltac compare_by_nia :=
  symmetry;
  first [ apply Z.compare_eq_iff; nia
        | apply Z.compare_lt_iff; nia
        | apply Z.compare_gt_iff; nia ].

(** On valid values the IEEE comparison is the comparison of ranks. *)
Lemma SFcompare_rank (x y : spec_float) :
  valid_binary x = true -> valid_binary y = true ->
  x <> S754_nan -> y <> S754_nan ->
  SFcompare x y = Some (rank x ?= rank y).
Proof.
  intros Hx Hy Nx Ny.
  assert (Hb : 0 < beyond) by (apply pow2_pos; lia).
  destruct x as [sx | sx | | sx mx ex], y as [sy | sy | | sy my ey];
    try congruence; simpl in Hx, Hy; simpl SFcompare; unfold rank;
    try pose proof (finite_rank_bounds _ _ Hx) as Bx;
    try pose proof (finite_rank_bounds _ _ Hy) as By;
    f_equal.
  all: try solve [ repeat match goal with s : bool |- _ => destruct s end;
                   simpl cond_Zopp; compare_by_lia ].
  destruct sx, sy; simpl cond_Zopp; try compare_by_lia.
  - destruct (Z.compare_spec ex ey) as [-> | Hlt | Hgt].
    + rewrite Pos_compare_cont_Eq.
      pose proof (pow2_pos (ey + 1074)
        ltac:(apply bounded_inv in Hy; lia)) as Hp.
      destruct (Z.compare_spec (Zpos mx) (Zpos my)); simpl CompOpp;
        compare_by_nia.
    + pose proof (finite_rank_exponent _ _ _ _ Hx Hy Hlt).
      compare_by_lia.
    + pose proof (finite_rank_exponent _ _ _ _ Hy Hx ltac:(lia)).
      compare_by_lia.
  - destruct (Z.compare_spec ex ey) as [-> | Hlt | Hgt].
    + rewrite Pos_compare_cont_Eq.
      pose proof (pow2_pos (ey + 1074)
        ltac:(apply bounded_inv in Hy; lia)) as Hp.
      destruct (Z.compare_spec (Zpos mx) (Zpos my)); compare_by_nia.
    + pose proof (finite_rank_exponent _ _ _ _ Hx Hy Hlt).
      compare_by_lia.
    + pose proof (finite_rank_exponent _ _ _ _ Hy Hx ltac:(lia)).
      compare_by_lia.
Qed.

Lemma rank_difference (sx sy : bool) (mx my : positive) (ex ey : Z) :
  -1074 <= ex -> -1074 <= ey ->
  rank (S754_finite sx mx ex) - rank (S754_finite sy my ey) =
  (cond_Zopp sx (Zpos (fst (shl_align mx ex (Z.min ex ey))))
   - cond_Zopp sy (Zpos (fst (shl_align my ey (Z.min ex ey)))))
  * 2 ^ (Z.min ex ey + 1074).
Proof.
  intros Hx Hy. rewrite !shl_align_value by lia. unfold rank.
  assert (Ex : 2 ^ (ex + 1074)
               = 2 ^ (ex - Z.min ex ey) * 2 ^ (Z.min ex ey + 1074))
    by (rewrite <- Z.pow_add_r by lia; f_equal; lia).
  assert (Ey : 2 ^ (ey + 1074)
               = 2 ^ (ey - Z.min ex ey) * 2 ^ (Z.min ex ey + 1074))
    by (rewrite <- Z.pow_add_r by lia; f_equal; lia).
  rewrite Ex, Ey. destruct sx, sy; simpl cond_Zopp; ring.
Qed.

(** The sign of a difference of valid values is the order of their
    ranks: the difference of two distinct values never rounds to zero. *)
Lemma SFsub_positive (x y : spec_float) :
  valid_binary x = true -> valid_binary y = true ->
  x <> S754_nan -> y <> S754_nan ->
  SFpositive (SF64sub x y) = (rank y <? rank x).
Proof.
  intros Hx Hy Nx Ny.
  assert (Hb : 0 < beyond) by (apply pow2_pos; lia).
  destruct x as [sx | sx | | sx mx ex], y as [sy | sy | | sy my ey];
    try congruence; simpl in Hx, Hy;
    try pose proof (finite_rank_bounds _ _ Hx) as Bx;
    try pose proof (finite_rank_bounds _ _ Hy) as By.
  all: try solve
    [ unfold rank; repeat match goal with s : bool |- _ => destruct s end;
      simpl; symmetry;
      first [ apply Z.ltb_lt; lia | apply Z.ltb_ge; lia ] ].
  pose proof (bounded_inv _ _ Hx) as (Ex & _ & _).
  pose proof (bounded_inv _ _ Hy) as (Ey & _ & _).
  pose proof (rank_difference sx sy mx my ex ey ltac:(lia) ltac:(lia)) as Hd.
  pose proof (pow2_pos (Z.min ex ey + 1074) ltac:(lia)) as Hp.
  unfold SF64sub, SFsub. cbv zeta.
  destruct (cond_Zopp sx (Zpos (fst (shl_align mx ex (Z.min ex ey))))
            - cond_Zopp sy (Zpos (fst (shl_align my ey (Z.min ex ey)))))
    as [| p | p] eqn:HM; unfold binary_normalize.
  - change (SFpositive (S754_zero false)) with false.
    symmetry. apply Z.ltb_ge. lia.
  - destruct (binary_round_sign false p (Z.min ex ey) ltac:(lia))
      as [(m' & e' & ->) | ->];
      [ change (SFpositive (S754_finite false m' e')) with true
      | change (SFpositive (S754_infinity false)) with true ];
      symmetry; apply Z.ltb_lt; nia.
  - destruct (binary_round_sign true p (Z.min ex ey) ltac:(lia))
      as [(m' & e' & ->) | ->];
      [ change (SFpositive (S754_finite true m' e')) with false
      | change (SFpositive (S754_infinity true)) with false ];
      symmetry; apply Z.ltb_ge; nia.
Qed.

Lemma Prim2SF_not_nan (a : float) : is_nan a = false -> Prim2SF a <> S754_nan.
Proof.
  intros H. unfold Prim2SF. rewrite H.
  destruct (is_zero a); [discriminate |].
  destruct (is_infinity a); [discriminate |].
  destruct (Z.frexp a) as [r e].
  destruct (shr_fexp _ _ _ _ _) as [mrs e'].
  destruct (shr_m mrs); discriminate.
Qed.

Lemma ltb_rank (a b : float) :
  is_nan a = false -> is_nan b = false ->
  (a <? b)%float = (float_rank a <? float_rank b).
Proof.
  intros Ha Hb. rewrite ltb_spec. unfold SFltb, float_rank.
  rewrite SFcompare_rank
    by auto using Prim2SF_valid, Prim2SF_not_nan.
  rewrite Z.ltb_compare. destruct (_ ?= _); reflexivity.
Qed.

Lemma leb_rank (a b : float) :
  is_nan a = false -> is_nan b = false ->
  (a <=? b)%float = (float_rank a <=? float_rank b).
Proof.
  intros Ha Hb. rewrite leb_spec. unfold SFleb, float_rank.
  rewrite SFcompare_rank
    by auto using Prim2SF_valid, Prim2SF_not_nan.
  rewrite Z.leb_compare. destruct (_ ?= _); reflexivity.
Qed.

Lemma sub_positive_rank (a b : float) :
  is_nan a = false -> is_nan b = false ->
  (0 <? b - a)%float = (float_rank a <? float_rank b).
Proof.
  intros Ha Hb. rewrite ltb_spec, sub_spec.
  change (Prim2SF 0) with (S754_zero false).
  apply (SFsub_positive (Prim2SF b) (Prim2SF a));
    auto using Prim2SF_valid, Prim2SF_not_nan.
Qed.

End Binary64.

(** * Running the array operations *)

Lemma extends_refl st : extends st st.
Proof. done. Qed.

Lemma fresh_lookup (m : gmap loc (list Rule)) : m !! fresh (dom m) = None.
Proof. apply not_elem_of_dom, is_fresh. Qed.

Lemma alloc_subseteq (m : gmap loc (list Rule)) xs :
  m ⊆ <[fresh (dom m) := xs]> m.
Proof. apply insert_subseteq, fresh_lookup. Qed.

Lemma filter_filter {A} (f g : A -> bool) (xs : list A) :
  List.filter g (List.filter f xs) = List.filter (fun x => f x && g x) xs.
Proof.
  induction xs as [| x xs IH]; simpl; [done |].
  destruct (f x); simpl; [destruct (g x) |]; by rewrite IH.
Qed.

Lemma sort_insert_length {A} (cmp : A -> A -> float) a xs :
  length (sort_insert cmp a xs) = S (length xs).
Proof.
  induction xs as [| b xs IH]; simpl; [done |].
  destruct (_ <? _)%float; simpl; by rewrite ?IH.
Qed.

Lemma sorted_by_length {A} (cmp : A -> A -> float) xs :
  length (sorted_by cmp xs) = length xs.
Proof.
  induction xs as [| a xs IH]; simpl; [done |].
  by rewrite sort_insert_length, IH.
Qed.

Lemma extends_trans st1 st2 st3 :
  extends st1 st2 -> extends st2 st3 -> extends st1 st3.
Proof.
  intros (? & ? & ?) (? & ? & ?). split; [by etrans |]. split; congruence.
Qed.

Lemma extends_lookup st st' l xs :
  extends st st' -> heap st !! l = Some xs -> heap st' !! l = Some xs.
Proof. intros [H _] Hl. by eapply lookup_weaken. Qed.

Lemma returns_bind {A B} (c : M A) (k : A -> M B) st Q :
  returns c st (fun a st1 => returns (k a) st1 Q) -> returns (bind c k) st Q.
Proof.
  intros (a & st1 & Hc & b & st2 & Hk & HQ). exists b, st2.
  split; [| done]. unfold bind. by rewrite Hc.
Qed.

Lemma returns_ret {A} (a : A) st (Q : A -> state -> Prop) :
  Q a st -> returns (ret a) st Q.
Proof. intros HQ. by exists a, st. Qed.

Lemma returns_new_array st0 st xs Q :
  extends st0 st ->
  (forall l st', cell st0 st' l xs -> Q l st') ->
  returns (new_array xs) st Q.
Proof.
  intros Hext HQ. eexists _, _. split; [reflexivity |].
  apply HQ. split; [| split].
  - eapply extends_trans; [done |]. split; [apply alloc_subseteq | done].
  - apply lookup_insert_eq.
  - destruct Hext as [Hsub _].
    destruct (heap st0 !! fresh (dom (heap st))) eqn:E; [| done].
    eapply lookup_weaken in E; [| done]. by rewrite fresh_lookup in E.
Qed.

Lemma returns_elements st l xs Q :
  heap st !! l = Some xs -> Q xs st -> returns (elements l) st Q.
Proof.
  intros Hl HQ. exists xs, st. split; [| done].
  unfold elements, bind, read_array. by rewrite Hl.
Qed.

Lemma returns_array_filter st0 st l xs f Q :
  extends st0 st -> heap st !! l = Some xs ->
  (forall l' st', cell st0 st' l' (List.filter f xs) -> Q l' st') ->
  returns (array_filter f l) st Q.
Proof.
  intros Hext Hl HQ. apply returns_bind, (returns_elements _ _ xs); [done |].
  by eapply returns_new_array.
Qed.

Lemma returns_array_slice st0 st l xs Q :
  extends st0 st -> heap st !! l = Some xs ->
  (forall l' st', cell st0 st' l' xs -> Q l' st') ->
  returns (array_slice l) st Q.
Proof.
  intros Hext Hl HQ. apply returns_bind, (returns_elements _ _ xs); [done |].
  by eapply returns_new_array.
Qed.

Lemma returns_array_length st l xs Q :
  heap st !! l = Some xs -> Q (length xs) st ->
  returns (array_length l) st Q.
Proof.
  intros Hl HQ. apply returns_bind, (returns_elements _ _ xs); [done |].
  by apply returns_ret.
Qed.

Lemma returns_array_get st l xs i Q :
  heap st !! l = Some xs ->
  Q (match xs !! i with Some r => SRule r | None => SUndefined end) st ->
  returns (array_get l i) st Q.
Proof.
  intros Hl HQ. apply returns_bind, (returns_elements _ _ xs); [done |].
  by apply returns_ret.
Qed.

Lemma returns_array_sort st0 st l xs cmp Q :
  cell st0 st l xs ->
  (forall st', cell st0 st' l (sorted_by cmp xs) -> Q tt st') ->
  returns (array_sort cmp l) st Q.
Proof.
  intros (Hext & Hl & Hnew) HQ.
  apply returns_bind, (returns_elements _ _ xs); [done |].
  eexists _, _. split; [reflexivity |]. apply HQ. split; [| split].
  - destruct Hext as (Hsub & ? & ?). split; [| done]. simpl.
    by apply insert_subseteq_r.
  - apply lookup_insert_eq.
  - done.
Qed.

Lemma filter_matches (q : query) (xs : list Rule) :
  List.filter (fun rule => strict_equals (get rule (str "tone")) (tone q))
    (List.filter
       (fun rule => strict_equals (get rule (str "density")) (density q))
       (List.filter
          (fun rule =>
             strict_equals (get rule (str "audience")) (audience q))
          (List.filter
             (fun rule => strict_equals (get rule (str "usage")) (usage q))
             xs)))
  = List.filter (matches q) xs.
Proof.
  rewrite !filter_filter. apply List.filter_ext. intros r. unfold matches.
  by rewrite !andb_assoc.
Qed.

Lemma selectRule_run (q : query) (st : state) :
  returns (selectRule (Some q)) st
    (fun r st' => r = choose q (snapshot st) /\ extends st st').
Proof.
  unfold selectRule, snapshot, choose.
  apply returns_bind. eexists _, _. split; [reflexivity |].
  apply returns_bind. eexists _, _. split; [reflexivity |].
  destruct (heap st !! engine_rules st) as [xs |] eqn:Hxs; simpl default.
  - apply returns_bind.
    eapply (returns_array_slice st); [apply extends_refl | done |].
    intros l1 st1 (E1 & H1 & _).
    apply returns_bind. eapply returns_array_filter; [done.. |].
    intros l2 st2 (E2 & H2 & _).
    apply returns_bind. eapply returns_array_filter; [done.. |].
    intros l3 st3 (E3 & H3 & _).
    apply returns_bind. eapply returns_array_filter; [done.. |].
    intros l4 st4 (E4 & H4 & _).
    apply returns_bind. eapply returns_array_filter; [done.. |].
    intros l5 st5 C5. pose proof C5 as (E5 & H5 & _).
    rewrite filter_matches in *.
    apply returns_bind. eapply returns_array_length; [done |].
    destruct (List.filter (matches q) xs) as [| c cs] eqn:Hm.
    + simpl. apply returns_bind, returns_ret.
      apply returns_bind. eapply returns_array_filter;
        [done | by eapply extends_lookup |].
      intros l6 st6 (E6 & H6 & _).
      apply returns_bind. eapply returns_array_length; [done |].
      fold is_fallback in *.
      destruct (List.filter is_fallback xs) as [| r rs] eqn:Hf; simpl.
      * by apply returns_ret.
      * by eapply returns_array_get.
    + simpl bool_decide. cbv iota.
      apply returns_bind. eapply returns_array_sort; [done |].
      intros st6 (E6 & H6 & _).
      eapply returns_array_get; [done |].
      split; [| done].
      pose proof (sorted_by_length by_priority (c :: cs)) as Hlen.
      destruct (sorted_by by_priority (c :: cs)); [done |]. done.
  - apply returns_bind.
    eapply (returns_new_array st); [apply extends_refl |].
    intros l1 st1 (E1 & H1 & _).
    apply returns_bind. eapply returns_array_filter; [done.. |].
    intros l2 st2 (E2 & H2 & _).
    apply returns_bind. eapply returns_array_filter; [done.. |].
    intros l3 st3 (E3 & H3 & _).
    apply returns_bind. eapply returns_array_filter; [done.. |].
    intros l4 st4 (E4 & H4 & _).
    apply returns_bind. eapply returns_array_filter; [done.. |].
    intros l5 st5 (E5 & H5 & _). simpl in H5.
    apply returns_bind. eapply returns_array_length; [done |]. simpl.
    apply returns_bind. eapply returns_new_array; [done |].
    intros l6 st6 (E6 & H6 & _).
    apply returns_bind. eapply returns_array_filter; [done.. |].
    intros l7 st7 (E7 & H7 & _). simpl in H7.
    apply returns_bind. eapply returns_array_length; [done |]. simpl.
    by apply returns_ret.
Qed.

(** * The head of the sorted candidates *)

Section FirstMaximum.
Context {A : Type} (compareFn : A -> A -> float) (key : A -> Z).
Context (f : A -> bool).
Hypothesis compareFn_sign :
  forall a b, (0 <? compareFn a b)%float = (key a <? key b)%Z.

Lemma head_sort_insert (a : A) (xs : list A) :
  head (sort_insert compareFn a xs)
  = Some (match head xs with
          | Some b => if (key a <? key b)%Z then b else a
          | None => a
          end).
Proof.
  destruct xs as [| b xs]; simpl; [done |].
  rewrite compareFn_sign. by destruct (key a <? key b)%Z.
Qed.

Lemma head_sorted_by_None (xs : list A) :
  head (sorted_by compareFn xs) = None -> xs = [].
Proof.
  intros H. pose proof (sorted_by_length compareFn xs) as Hlen.
  destruct (sorted_by compareFn xs); [| done].
  by destruct xs.
Qed.

(** The head of the sorted matching elements is the first element of
    greatest key among the matching ones. *)
Lemma head_sorted_filter (xs : list A) (r : A) :
  head (sorted_by compareFn (List.filter f xs)) = Some r ->
  exists i,
    xs !! i = Some r /\ f r = true
    /\ forall j y, xs !! j = Some y -> f y = true ->
         (key y <= key r)%Z /\ (j < i -> (key y < key r)%Z).
Proof.
  revert r. induction xs as [| x xs IH]; intros r; simpl; [done |].
  destruct (f x) eqn:Hfx; simpl.
  - rewrite head_sort_insert.
    destruct (head (sorted_by compareFn (List.filter f xs))) as [b |] eqn:Hb.
    + destruct (IH b eq_refl) as (i & Hi & Hfb & Hmax).
      destruct (key x <? key b)%Z eqn:Hlt; intros [= <-].
      * apply Z.ltb_lt in Hlt. exists (S i). split; [done |]. split; [done |].
        intros [| j] y Hy Hfy; simpl in Hy.
        -- injection Hy as <-. lia.
        -- destruct (Hmax j y Hy Hfy). lia.
      * apply Z.ltb_ge in Hlt. exists 0. split; [done |]. split; [done |].
        intros [| j] y Hy Hfy; simpl in Hy.
        -- injection Hy as <-. lia.
        -- destruct (Hmax j y Hy Hfy). lia.
    + intros [= <-]. exists 0. split; [done |]. split; [done |].
      apply head_sorted_by_None in Hb.
      intros [| j] y Hy Hfy; simpl in Hy.
      * injection Hy as <-. lia.
      * assert (Hin : In y (List.filter f xs)).
        { apply filter_In. split; [| done].
          apply list_elem_of_In, list_elem_of_lookup. eauto. }
        rewrite Hb in Hin. destruct Hin.
  - intros Hr. destruct (IH r Hr) as (i & Hi & Hfr & Hmax).
    exists (S i). split; [done |]. split; [done |].
    intros [| j] y Hy Hfy; simpl in Hy.
    + injection Hy as <-. congruence.
    + destruct (Hmax j y Hy Hfy). lia.
Qed.
(** [sorted_by] is a stable sort by descending key, and a list has only
    one such arrangement: whichever stable algorithm the engine runs, it
    gives this array. *)

Lemma sort_insert_stable (k : Z) (a : A) (xs : list A) :
  List.filter (fun x => (key x =? k)%Z) (sort_insert compareFn a xs)
  = List.filter (fun x => (key x =? k)%Z) (a :: xs).
Proof.
  induction xs as [| b xs IH]; [done |]. cbn [sort_insert].
  rewrite compareFn_sign. destruct (key a <? key b)%Z eqn:Hlt; [| done].
  apply Z.ltb_lt in Hlt. cbn [List.filter] in *. rewrite IH.
  destruct (key a =? k)%Z eqn:Ea, (key b =? k)%Z eqn:Eb; try done.
  apply Z.eqb_eq in Ea, Eb. lia.
Qed.

Lemma sorted_by_stable (k : Z) (xs : list A) :
  List.filter (fun x => (key x =? k)%Z) (sorted_by compareFn xs)
  = List.filter (fun x => (key x =? k)%Z) xs.
Proof.
  induction xs as [| a xs IH]; [done |]. cbn [sorted_by].
  rewrite sort_insert_stable. cbn [List.filter]. by rewrite IH.
Qed.

Lemma sort_insert_In (a y : A) (xs : list A) :
  In y (sort_insert compareFn a xs) <-> y = a \/ In y xs.
Proof.
  induction xs as [| b xs IH]; cbn [sort_insert].
  - simpl. intuition.
  - destruct (0 <? compareFn a b)%float; simpl; [rewrite IH |]; intuition.
Qed.

Lemma sort_insert_descending (a : A) (xs : list A) :
  StronglySorted (fun x y => (key y <= key x)%Z) xs ->
  StronglySorted (fun x y => (key y <= key x)%Z) (sort_insert compareFn a xs).
Proof.
  induction xs as [| b xs IH]; intros Hs; cbn [sort_insert].
  - repeat constructor.
  - apply StronglySorted_inv in Hs as [Hs Hb]. rewrite compareFn_sign.
    destruct (key a <? key b)%Z eqn:Hlt.
    + apply Z.ltb_lt in Hlt. constructor; [by apply IH |].
      apply List.Forall_forall. intros y [-> | Hy]%sort_insert_In; [lia |].
      rewrite List.Forall_forall in Hb. by apply Hb.
    + apply Z.ltb_ge in Hlt. constructor; [by constructor |].
      constructor; [done |]. rewrite List.Forall_forall in Hb |- *.
      intros y Hy. specialize (Hb y Hy). lia.
Qed.

Lemma sorted_by_descending (xs : list A) :
  StronglySorted (fun x y => (key y <= key x)%Z) (sorted_by compareFn xs).
Proof.
  induction xs as [| a xs IH]; cbn [sorted_by]; [constructor |].
  by apply sort_insert_descending.
Qed.

Lemma stable_sort_unique (xs ys : list A) :
  StronglySorted (fun x y => (key y <= key x)%Z) xs ->
  StronglySorted (fun x y => (key y <= key x)%Z) ys ->
  (forall k, List.filter (fun x => (key x =? k)%Z) xs
             = List.filter (fun x => (key x =? k)%Z) ys) ->
  xs = ys.
Proof.
  revert ys. induction xs as [| a xs IH]; intros ys Hx Hy Hsame.
  - destruct ys as [| b ys]; [done |].
    specialize (Hsame (key b)). cbn [List.filter] in Hsame.
    by rewrite Z.eqb_refl in Hsame.
  - destruct ys as [| b ys].
    { specialize (Hsame (key a)). cbn [List.filter] in Hsame.
      by rewrite Z.eqb_refl in Hsame. }
    apply StronglySorted_inv in Hx as [Hx Ha].
    apply StronglySorted_inv in Hy as [Hy Hb].
    rewrite List.Forall_forall in Ha, Hb.
    assert (Hab : key a = key b).
    { pose proof (Hsame (key a)) as Ea. pose proof (Hsame (key b)) as Eb.
      cbn [List.filter] in Ea, Eb. rewrite Z.eqb_refl in Ea, Eb.
      destruct (key b =? key a)%Z eqn:E1; [by apply Z.eqb_eq in E1 |].
      destruct (key a =? key b)%Z eqn:E2; [by apply Z.eqb_eq in E2 |].
      assert (In a ys).
      { eapply (proj1 (filter_In _ a ys)). rewrite <- Ea. by left. }
      assert (In b xs).
      { eapply (proj1 (filter_In _ b xs)). rewrite Eb. by left. }
      apply Z.eqb_neq in E1. specialize (Ha b ltac:(done)).
      specialize (Hb a ltac:(done)). lia. }
    assert (a = b).
    { specialize (Hsame (key a)). cbn [List.filter] in Hsame.
      rewrite <- Hab, Z.eqb_refl in Hsame. congruence. }
    subst b. f_equal. apply IH; [done.. |].
    intros k. specialize (Hsame k). cbn [List.filter] in Hsame.
    destruct (key a =? k)%Z; congruence.
Qed.

End FirstMaximum.

Lemma priority_of_not_nan (r : Rule) : is_nan (priority_of r) = false.
Proof.
  unfold priority_of, number_or, ToBoolean.
  destruct (is_zero _ || is_nan _) eqn:E; simpl; [done |].
  by apply orb_false_elim in E as [_ ?].
Qed.

Lemma by_priority_sign (a b : Rule) :
  (0 <? by_priority a b)%float
  = (float_rank (priority_of a) <? float_rank (priority_of b))%Z.
Proof. apply sub_positive_rank; apply priority_of_not_nan. Qed.

(** * What [selectRule] returns and leaves *)

Lemma selectRule_result (q : query) (st : state) :
  fst (selectRule (Some q) st) = Return (choose q (snapshot st)).
Proof.
  destruct (selectRule_run q st) as (r & st' & -> & -> & _). done.
Qed.

Lemma selectRule_extends (input : option query) (st : state) :
  extends st (snd (selectRule input st)).
Proof.
  destruct input as [q |]; [| apply extends_refl].
  by destruct (selectRule_run q st) as (r & st' & -> & _ & ?).
Qed.

(** The result depends on the state through the array read only. *)
Lemma selectRule_same_snapshot (input : option query) (st1 st2 : state) :
  snapshot st1 = snapshot st2 ->
  fst (selectRule input st1) = fst (selectRule input st2).
Proof.
  intros H. destruct input as [q |]; [| done].
  by rewrite !selectRule_result, H.
Qed.

Lemma decide_font_extends (req_body : option query) (st : state) :
  extends st (snd (decide_font req_body st)).
Proof.
  unfold decide_font.
  destruct (negb _ || negb _ || negb _ || negb _); [apply extends_refl |].
  unfold bind.
  destruct (selectRule_run
              (default (Query VUndefined VUndefined VUndefined VUndefined)
                 req_body) st)
    as (r & st' & -> & _ & ?).
  by destruct r.
Qed.

Lemma extends_snapshot (st st' : state) :
  extends st st' -> is_Some (heap st !! engine_rules st) ->
  snapshot st' = snapshot st.
Proof.
  intros Hext [xs Hxs]. unfold snapshot.
  destruct Hext as (Hsub & _ & ->).
  by rewrite Hxs, (lookup_weaken _ _ _ _ Hxs Hsub).
Qed.

Lemma extends_loaded (st st' : state) :
  extends st st' -> is_Some (heap st !! loader_rules st) ->
  loaded st' = loaded st.
Proof.
  intros Hext [xs Hxs]. unfold loaded.
  destruct Hext as (Hsub & -> & _).
  by rewrite Hxs, (lookup_weaken _ _ _ _ Hxs Hsub).
Qed.

Lemma extends_well_formed (st st' : state) :
  extends st st' -> well_formed st -> well_formed st'.
Proof.
  intros (Hsub & El & Ee) [[xs Hxs] [ys Hys]]. unfold well_formed.
  rewrite El, Ee. split.
  - exists xs. by eapply lookup_weaken.
  - exists ys. by eapply lookup_weaken.
Qed.

(** * Loading *)

Lemma loadRules_client_throws (src : source) (st : state) (message : string) :
  client src = Throw message -> loadRules src st = (Throw message, st).
Proof.
  intros H. unfold loadRules, bind, createSheetsClient, lift. by rewrite H.
Qed.

Lemma loadRules_fetch_rejects (src : source) (st : state) (message : string) :
  client src = Return tt -> fetch src = Throw message ->
  loadRules src st = (Throw message, st).
Proof.
  intros Hc Hf.
  unfold loadRules, bind, createSheetsClient, spreadsheets_values_get, lift.
  by rewrite Hc, Hf.
Qed.

Lemma loadRules_empty (src : source) (st : state) values :
  client src = Return tt -> fetch src = Return values ->
  default [] values = [] ->
  loadRules src st
  = (Return (fresh (dom (heap st))),
     State (<[fresh (dom (heap st)) := []]> (heap st))
       (fresh (dom (heap st))) (engine_rules st)).
Proof.
  intros Hc Hf Hv.
  unfold loadRules, bind, createSheetsClient, spreadsheets_values_get, lift.
  by rewrite Hc, Hf, Hv.
Qed.

(** A load that finds rows empties the array and then pushes the rules,
    which throws when they are more than a call takes arguments. *)
Lemma loadRules_rows (src : source) (st : state) values header dataRows old :
  client src = Return tt -> fetch src = Return values ->
  default [] values = header :: dataRows ->
  heap st !! loader_rules st = Some old ->
  loadRules src st
  = if (N.of_nat (length (loadedRules (normalize_headers header) dataRows))
        <=? max_arguments src)%N
    then (Return (loader_rules st),
          State (<[loader_rules st :=
                    loadedRules (normalize_headers header) dataRows]> (heap st))
            (loader_rules st) (engine_rules st))
    else (Throw "RangeError: Maximum call stack size exceeded",
          State (<[loader_rules st := []]> (heap st))
            (loader_rules st) (engine_rules st)).
Proof.
  intros Hc Hf Hv Hold.
  unfold loadRules, bind, createSheetsClient, spreadsheets_values_get, lift.
  rewrite Hc, Hf, Hv.
  unfold read_loader_rules, array_set_length, array_push, elements, bind,
    read_array, write_array, ret, throw.
  simpl. rewrite Hold. simpl. rewrite lookup_insert_eq. simpl.
  destruct (_ <=? _)%N; simpl; [by rewrite insert_insert_eq | done].
Qed.

(** ** The rule built from a row *)

Lemma normalize_headers_first (h : js_string) (header : row) :
  head (normalize_headers (h :: header)) = Some (str "rule_id").
Proof.
  unfold normalize_headers. cbn [fmap list_fmap].
  case_bool_decide as E; [done |]. simpl. f_equal.
  by destruct (decide (trim h = str "rule_id")).
Qed.

Lemma mapRowToRule_step_eq (cells : row) (rule : Rule) (index : nat)
    (header : js_string) :
  mapRowToRule_step cells rule index header
  = if bool_decide (trim header = []) then rule
    else set_property rule (trim header)
           (field_value (trim header) (cell_text cells index)).
Proof.
  unfold mapRowToRule_step, field_value, cell_text.
  repeat case_bool_decide; reflexivity.
Qed.

Lemma set_property_lookup (rule : Rule) (k key : js_string) (v : value) :
  key <> str "__proto__" ->
  set_property rule k v !! key = if decide (k = key) then Some v else rule !! key.
Proof.
  intros Hkey. unfold set_property. case_bool_decide as Hk.
  - destruct (decide (k = key)); [congruence | done].
  - destruct (decide (k = key)) as [-> | ?];
      [apply lookup_insert_eq | by apply lookup_insert_ne].
Qed.

Lemma set_property_lookup_proto (rule : Rule) (k : js_string) (v : value) :
  set_property rule k v !! str "__proto__" = rule !! str "__proto__".
Proof.
  unfold set_property. case_bool_decide as Hk; [done |].
  by apply lookup_insert_ne.
Qed.

(** No column gives a rule a property named [__proto__]. *)
Lemma mapRowToRule_from_lookup_proto (headers cells : row) (index : nat)
    (rule : Rule) :
  mapRowToRule_from index headers cells rule !! str "__proto__"
  = rule !! str "__proto__".
Proof.
  revert index rule. induction headers as [| header headers IH];
    intros index rule; simpl; [done |].
  rewrite IH, mapRowToRule_step_eq. case_bool_decide; [done |].
  apply set_property_lookup_proto.
Qed.

Lemma mapRowToRule_from_lookup (headers cells : row) (index : nat)
    (rule : Rule) (key : js_string) :
  key <> [] -> key <> str "__proto__" ->
  mapRowToRule_from index headers cells rule !! key
  = match last_column key index headers with
    | Some i => Some (field_value key (cell_text cells i))
    | None => rule !! key
    end.
Proof.
  intros Hkey Hproto. revert index rule.
  induction headers as [| header headers IH]; intros index rule; simpl;
    [done |].
  rewrite IH. destruct (last_column key (S index) headers); [done |].
  rewrite mapRowToRule_step_eq.
  destruct (decide (trim header = key)) as [<- | Hk].
  - rewrite (bool_decide_true (trim header = trim header)) by done.
    rewrite (bool_decide_false (trim header = [])) by done.
    rewrite set_property_lookup by done. by destruct (decide _).
  - rewrite (bool_decide_false (trim header = key)) by done.
    case_bool_decide; [done |].
    rewrite set_property_lookup by done. by destruct (decide _).
Qed.

(** Each property of a rule is the trimmed cell of the last column that
    has the property's name. *)
Lemma mapRowToRule_lookup (headers cells : row) (key : js_string) :
  key <> [] -> key <> str "__proto__" ->
  mapRowToRule headers cells !! key
  = (fun i => field_value key (cell_text cells i)) <$> last_column key 0 headers.
Proof.
  intros Hkey Hproto. unfold mapRowToRule.
  rewrite mapRowToRule_from_lookup by done.
  by destruct (last_column key 0 headers).
Qed.

Lemma last_column_Some (key : js_string) (headers : row) (index i : nat) :
  last_column key index headers = Some i ->
  index <= i
  /\ (exists header, headers !! (i - index) = Some header /\ trim header = key)
  /\ forall j header, i < j -> headers !! (j - index) = Some header ->
       trim header <> key.
Proof.
  revert index. induction headers as [| h headers IH]; intros index; simpl;
    [done |].
  destruct (last_column key (S index) headers) as [i' |] eqn:E.
  - intros [= ->]. destruct (IH _ E) as (Hle & (h' & Hh' & Hk) & Hlast).
    split; [lia |]. split.
    + exists h'. split; [| done].
      replace (i - index) with (S (i - S index)) by lia. done.
    + intros j hj Hj Hhj. apply (Hlast j hj); [done |].
      replace (j - index) with (S (j - S index)) in Hhj by lia. done.
  - case_bool_decide as Hk; [| done]. intros [= <-].
    split; [lia |]. split.
    + exists h. by rewrite Nat.sub_diag.
    + intros j hj Hj Hhj.
      replace (j - index) with (S (j - S index)) in Hhj by lia. simpl in Hhj.
      clear IH. revert E Hhj. generalize (S index) as n. revert j Hj.
      induction headers as [| h2 headers IH2]; intros j Hj n E Hhj;
        [done |].
      simpl in E. destruct (last_column key (S n) headers) eqn:E2; [done |].
      case_bool_decide as Hk2; [done |].
      destruct (j - n) as [| d] eqn:Hd; simpl in Hhj; [congruence |].
      apply (IH2 (j) ltac:(lia) (S n)); [done |].
      replace (j - S n) with d by lia. done.
Qed.

Lemma field_value_rule_id (text : js_string) :
  field_value (str "rule_id") text = VString text.
Proof. reflexivity. Qed.

(** A rule has its [rule_id] from a column other than [priority]: it is a
    string, and truthy exactly when it is not empty. *)
Lemma mapRowToRule_has_rule_id (headers cells : row) :
  ToBoolean (get (mapRowToRule headers cells) (str "rule_id")) = true ->
  has_rule_id (mapRowToRule headers cells).
Proof.
  unfold get, has_rule_id. rewrite mapRowToRule_lookup by done.
  destruct (last_column (str "rule_id") 0 headers) as [i |];
    [| discriminate].
  simpl fmap. rewrite field_value_rule_id. simpl default.
  intros H. exists (cell_text cells i). split; [done |].
  intros E. rewrite E in H. discriminate.
Qed.

Lemma loadedRules_has_rule_id (headers : row) (dataRows : list row) :
  Forall has_rule_id (loadedRules headers dataRows).
Proof.
  apply List.Forall_forall. intros r [Hin Hid]%filter_In.
  apply list_elem_of_In, list_elem_of_fmap in Hin as (cells & -> & _).
  by apply mapRowToRule_has_rule_id.
Qed.

Lemma filter_fmap {A B} (f : A -> B) (g : B -> bool) (xs : list A) :
  List.filter g (f <$> xs) = f <$> List.filter (fun x => g (f x)) xs.
Proof.
  induction xs as [| x xs IH]; [done |].
  change (f <$> x :: xs) with (f x :: (f <$> xs)).
  cbn [List.filter]. destruct (g (f x)); [| done].
  change (f <$> x :: List.filter (fun x => g (f x)) xs)
    with (f x :: (f <$> List.filter (fun x => g (f x)) xs)).
  by rewrite IH.
Qed.

(** Dropping the rows without cells, mapping, and dropping the rules
    without [rule_id] is mapping the rows that pass both tests. *)
Lemma loadedRules_eq (headers : row) (dataRows : list row) :
  loadedRules headers dataRows
  = mapRowToRule headers
      <$> List.filter
            (fun cells =>
               bool_decide (0 < length cells)
               && ToBoolean (get (mapRowToRule headers cells) (str "rule_id")))
            dataRows.
Proof.
  unfold loadedRules. by rewrite filter_fmap, filter_filter.
Qed.

(** * Histories *)

Lemma invariant_initial : invariant initial_state.
Proof.
  split; [split; by eexists |]. split; apply Forall_nil_2.
Qed.

Lemma invariant_extends (st st' : state) :
  extends st st' -> invariant st -> invariant st'.
Proof.
  intros Hext (Hwf & Hs & Hl). pose proof Hwf as [? ?].
  split; [by eapply extends_well_formed |].
  by rewrite (extends_snapshot st st'), (extends_loaded st st').
Qed.

Lemma loadRules_invariant (src : source) (st : state) :
  invariant st -> invariant (snd (loadRules src st)).
Proof.
  intros Hinv. pose proof Hinv as ([[old Hold] [xs Hxs]] & Hs & Hl).
  destruct (client src) as [[] | message] eqn:Hc;
    [| by rewrite (loadRules_client_throws _ _ message)].
  destruct (fetch src) as [values | message] eqn:Hf;
    [| by rewrite (loadRules_fetch_rejects _ _ message)].
  destruct (default [] values) as [| header dataRows] eqn:Hv.
  - rewrite (loadRules_empty _ _ values) by done. simpl.
    assert (Hne : fresh (dom (heap st)) <> engine_rules st).
    { intros E. pose proof (fresh_lookup (heap st)) as Hfr. congruence. }
    unfold invariant, well_formed, snapshot, loaded. simpl.
    rewrite lookup_insert_eq, lookup_insert_ne, Hxs by done.
    unfold snapshot in Hs. rewrite Hxs in Hs. simpl in *.
    split; [split; by eexists |]. split; [done | apply Forall_nil_2].
  - rewrite (loadRules_rows _ _ values header dataRows old) by done.
    pose proof (loadedRules_has_rule_id (normalize_headers header) dataRows)
      as Hids.
    assert (Hnil : Forall has_rule_id []) by apply Forall_nil_2.
    destruct (_ <=? _)%N; simpl;
      unfold invariant, well_formed, snapshot, loaded; simpl;
      rewrite lookup_insert_eq; simpl;
      (destruct (decide (loader_rules st = engine_rules st)) as [E | E];
       [ rewrite <- E, lookup_insert_eq; simpl;
         split; [split; by eexists |]; done
       | rewrite lookup_insert_ne, Hxs by done; simpl;
         unfold snapshot in Hs; rewrite Hxs in Hs;
         split; [split; by eexists |]; done ]).
Qed.

Lemma reload_eq (src : source) (st : state) :
  reload src st = snd (loadRules src st).
Proof. unfold reload. by destruct (loadRules src st) as [[] ?]. Qed.

Lemma step_invariant (st : state) (e : event) :
  invariant st -> invariant (step st e).
Proof.
  intros Hinv. destruct e as [src | input | req_body]; simpl.
  - rewrite reload_eq. by apply loadRules_invariant.
  - eapply invariant_extends; [apply selectRule_extends | done].
  - eapply invariant_extends; [apply decide_font_extends | done].
Qed.

Lemma run_invariant (es : list event) (st : state) :
  invariant st -> invariant (run es st).
Proof.
  revert st. induction es as [| e es IH]; intros st Hinv; [done |].
  simpl. apply IH. by apply step_invariant.
Qed.

(** * Header rows and priorities *)

Lemma trimStart_starts_clean (s : js_string) : starts_clean (trimStart s).
Proof.
  induction s as [| c s IH]; simpl; [done |].
  by destruct (is_white_space c) eqn:E.
Qed.

Lemma trimStart_clean (s : js_string) : starts_clean s -> trimStart s = s.
Proof. destruct s as [| c s]; simpl; [done |]. by intros ->. Qed.

Lemma trimStart_snoc (s : js_string) (c : N) :
  is_white_space c = false -> trimStart (s ++ [c]) = trimStart s ++ [c].
Proof.
  intros Hc. induction s as [| d s IH]; simpl; [by rewrite Hc |].
  by destruct (is_white_space d).
Qed.

Lemma trimEnd_starts_clean (s : js_string) :
  starts_clean s -> starts_clean (trimEnd s).
Proof.
  unfold trimEnd. destruct s as [| c s]; [done |]. simpl. intros Hc.
  by rewrite reverse_cons, trimStart_snoc, reverse_app.
Qed.

Lemma trim_idempotent (s : js_string) : trim (trim s) = trim s.
Proof.
  unfold trim at 1.
  rewrite (trimStart_clean (trim s))
    by apply trimEnd_starts_clean, trimStart_starts_clean.
  unfold trim, trimEnd. rewrite reverse_involutive.
  by rewrite (trimStart_clean (trimStart _)) by apply trimStart_starts_clean.
Qed.

Lemma last_column_trimmed (key : js_string) (index : nat) (headers : row) :
  last_column key index (trim <$> headers) = last_column key index headers.
Proof.
  revert index. induction headers as [| h headers IH]; intros index;
    [done |].
  cbn [fmap list_fmap last_column]. fold (fmap (M:=list) trim headers).
  by rewrite IH, trim_idempotent.
Qed.

Lemma last_column_is_Some (key : js_string) (index : nat) (headers : row) :
  is_Some (last_column key index headers) <-> key ∈ trim <$> headers.
Proof.
  revert index. induction headers as [| h headers IH]; intros index.
  - simpl. rewrite elem_of_nil. split; [by intros [? ?] | done].
  - cbn [fmap list_fmap last_column]. fold (fmap (M:=list) trim headers).
    rewrite elem_of_cons, <- (IH (S index)).
    destruct (last_column key (S index) headers) as [i |].
    + split; [by right | by eexists].
    + case_bool_decide as E.
      * split; [by left | by eexists].
      * split; [by intros [? ?] |]. intros [-> | [? ?]]; done.
Qed.

Lemma last_column_bound (key : js_string) (headers : row) (i : nat) :
  last_column key 0 headers = Some i -> i < length headers.
Proof.
  intros (_ & (h & Hh & _) & _)%last_column_Some.
  rewrite Nat.sub_0_r in Hh. by eapply lookup_lt_Some.
Qed.

Lemma rule_id_truthy (headers cells : row) :
  ToBoolean (get (mapRowToRule headers cells) (str "rule_id"))
  = negb (bool_decide (rule_id_text headers cells = [])).
Proof.
  unfold get, rule_id_text. rewrite mapRowToRule_lookup by done.
  destruct (last_column (str "rule_id") 0 headers) as [i |]; [| done].
  simpl fmap. by rewrite field_value_rule_id.
Qed.

Lemma mapRowToRule_from_lookup_nil (headers cells : row) (index : nat)
    (rule : Rule) :
  mapRowToRule_from index headers cells rule !! [] = rule !! [].
Proof.
  revert index rule. induction headers as [| header headers IH];
    intros index rule; simpl; [done |].
  rewrite IH, mapRowToRule_step_eq. case_bool_decide as Hk; [done |].
  unfold set_property. case_bool_decide; [done |].
  by rewrite lookup_insert_ne.
Qed.


(** The header row as [loadRules] reads it names the columns as
    [column_name] does. *)
Lemma last_named_later (key : js_string) (index : nat) (header : row) :
  last_named key (S index) header = last_column key (S index) header.
Proof.
  revert index. induction header as [| label header IH]; intros index;
    [done |].
  simpl. by rewrite IH.
Qed.

Lemma last_column_normalize (key : js_string) (header : row) :
  last_column key 0 (normalize_headers header) = last_named key 0 header.
Proof.
  destruct header as [| label header]; [done |].
  unfold normalize_headers. cbn [fmap list_fmap].
  fold (fmap (M:=list) trim header).
  assert (E : forall first,
             first = str "rule_id" ->
             last_column key 0 (first :: (trim <$> header))
             = last_named key 0 (label :: header)).
  { intros first ->. cbn [last_column last_named column_name].
    by rewrite last_column_trimmed, last_named_later. }
  case_bool_decide as Hfirst; apply E; [done |].
  by destruct (decide (trim label = str "rule_id")).
Qed.

Lemma rule_id_of_truthy (header cells : row) :
  ToBoolean (get (mapRowToRule (normalize_headers header) cells)
               (str "rule_id"))
  = negb (bool_decide (rule_id_of header cells = [])).
Proof.
  rewrite rule_id_truthy. unfold rule_id_text, rule_id_of.
  rewrite last_column_normalize.
  by destruct (last_named (str "rule_id") 0 header).
Qed.

(** The rules of a load are the rules of the rows that are kept, in the
    order of the rows. *)
Lemma loadedRules_kept (header : row) (dataRows : list row) :
  loadedRules (normalize_headers header) dataRows
  = mapRowToRule (normalize_headers header)
      <$> List.filter (is_kept header) dataRows.
Proof.
  rewrite loadedRules_eq. f_equal. apply List.filter_ext. intros cells.
  unfold is_kept. by rewrite rule_id_of_truthy.
Qed.

Lemma mapRowToRule_is_rule_of (header cells : row) :
  is_rule_of header cells (mapRowToRule (normalize_headers header) cells).
Proof.
  intros key. case_bool_decide as Hkey.
  - unfold mapRowToRule. destruct Hkey as [-> | ->].
    + by rewrite mapRowToRule_from_lookup_nil.
    + by rewrite mapRowToRule_from_lookup_proto.
  - rewrite mapRowToRule_lookup, last_column_normalize by tauto. done.
Qed.

Lemma filter_replicate {A} (f : A -> bool) (n : nat) (x : A) :
  List.filter f (replicate n x) = if f x then replicate n x else [].
Proof.
  induction n as [| n IH]; simpl; [by destruct (f x) |].
  rewrite IH. by destruct (f x).
Qed.

Section Ranks.
Local Open Scope Z_scope.

Lemma eqb_rank (a b : float) :
  is_nan a = false -> is_nan b = false ->
  (a =? b)%float = (float_rank a =? float_rank b).
Proof.
  intros Ha Hb. rewrite FloatAxioms.eqb_spec. unfold SFeqb, float_rank.
  rewrite SFcompare_rank
    by auto using Prim2SF_valid, Prim2SF_not_nan.
  rewrite Z.eqb_compare. destruct (_ ?= _); reflexivity.
Qed.

Lemma float_rank_number_or (n : float) :
  is_nan n = false -> float_rank (number_or n 0) = float_rank n.
Proof.
  intros Hn. unfold number_or, ToBoolean. rewrite Hn, orb_false_r.
  destruct (is_zero n) eqn:Hz; [| done]. simpl.
  unfold is_zero in Hz. rewrite eqb_rank in Hz by done.
  apply Z.eqb_eq in Hz. by rewrite Hz.
Qed.

Lemma priority_number_not_nan (r : Rule) : is_nan (priority_number r) = false.
Proof.
  unfold priority_number.
  by destruct (is_nan (Number (get r (str "priority")))) eqn:E.
Qed.

(** The comparator's key and the priority of the specification have the
    same place among the numbers. *)
Lemma priority_of_rank (r : Rule) :
  float_rank (priority_of r) = float_rank (priority_number r).
Proof.
  unfold priority_of, priority_number.
  destruct (is_nan (Number (get r (str "priority")))) eqn:E.
  - unfold number_or, ToBoolean. by rewrite E, orb_true_r.
  - by apply float_rank_number_or.
Qed.
End Ranks.

(** * The properties *)

(** ** Auxiliary facts *)

(** The head of a filtered list is the first element that passes. *)
Lemma filter_head_first {A} (f : A -> bool) (xs : list A) (y : A) :
  In y xs -> f y = true ->
  exists i r,
    head (List.filter f xs) = Some r
    /\ xs !! i = Some r /\ f r = true
    /\ forall j r', j < i -> xs !! j = Some r' -> f r' = false.
Proof.
  induction xs as [| x xs IH]; intros Hin Hy; [done |]. simpl.
  destruct (f x) eqn:Hx.
  - exists 0, x. repeat (split; [done |]). intros j r' Hj. lia.
  - destruct Hin as [-> | Hin]; [congruence |].
    destruct (IH Hin Hy) as (i & r & Hhead & Hi & Hr & Hfirst).
    exists (S i), r. repeat (split; [done |]).
    intros [| j] r' Hj Hr'; simpl in Hr'; [congruence |].
    apply (Hfirst j); [lia | done].
Qed.

Lemma filter_nil_iff {A} (f : A -> bool) (xs : list A) :
  (forall y, y ∈ xs -> f y = false) -> List.filter f xs = [].
Proof.
  intros H. induction xs as [| x xs IH]; [done |]. simpl.
  rewrite (H x) by apply list_elem_of_here.
  apply IH. intros y Hy. apply H. by apply list_elem_of_further.
Qed.

Lemma example_snapshot : snapshot example_state = example_rules.
Proof. vm_compute. reflexivity. Qed.

Lemma snapshot_without_fallback :
  snapshot state_without_fallback = [example_R1].
Proof. vm_compute. reflexivity. Qed.

Lemma ranked_snapshot :
  snapshot ranked_state
  = mapRowToRule example_header
      <$> [example_row_R1; example_row_R2; example_row_R3; example_row_SYS].
Proof. vm_compute. reflexivity. Qed.

(** ** The matcher *)

(** C1. When some rule of the array matches the query on all four
    attributes, [selectRule] returns a matching rule of the array whose
    priority is at least the priority of every matching rule, and every
    matching rule that stands before it in the array has a strictly
    smaller priority: of the matching rules of greatest priority it is
    the earliest.  The priority of a rule is the number in its
    [priority], 0 when that is no number ([priority_number]), and
    priorities are compared as JavaScript compares numbers. *)
Theorem selectRule_highest_priority (st : state) (q : query) :
  (exists r, r ∈ snapshot st /\ matches q r = true) ->
  exists i r,
    fst (selectRule (Some q) st) = Return (SRule r)
    /\ snapshot st !! i = Some r
    /\ matches q r = true
    /\ (forall j r', snapshot st !! j = Some r' -> matches q r' = true ->
          (priority_number r' <=? priority_number r)%float = true)
    /\ (forall j r', snapshot st !! j = Some r' -> matches q r' = true ->
          j < i -> (priority_number r' <? priority_number r)%float = true).
Proof.
  intros (r0 & Hin & Hm0). rewrite selectRule_result. unfold choose.
  assert (Hne : List.filter (matches q) (snapshot st) <> []).
  { intros E. assert (Hin0 : In r0 (List.filter (matches q) (snapshot st)))
      by (apply filter_In; split; [by apply list_elem_of_In | done]).
    by rewrite E in Hin0. }
  destruct (List.filter (matches q) (snapshot st)) as [| c cs] eqn:Hf;
    [done |].
  destruct (sorted_by by_priority (c :: cs)) as [| r rs] eqn:Hs.
  { pose proof (sorted_by_length by_priority (c :: cs)) as Hlen.
    by rewrite Hs in Hlen. }
  destruct (head_sorted_filter by_priority
              (fun x => float_rank (priority_of x)) (matches q)
              by_priority_sign (snapshot st) r) as (i & Hi & Hm & Hmax).
  { by rewrite Hf, Hs. }
  exists i, r. split; [done |]. split; [done |]. split; [done |]. split.
  - intros j r' Hj Hm'. destruct (Hmax j r' Hj Hm') as [Hle _].
    rewrite leb_rank, <- !priority_of_rank by apply priority_number_not_nan.
    by apply Z.leb_le.
  - intros j r' Hj Hm' Hlt. destruct (Hmax j r' Hj Hm') as [_ Hless].
    rewrite ltb_rank, <- !priority_of_rank by apply priority_number_not_nan.
    apply Z.ltb_lt. auto.
Qed.

Lemma selectRule_highest_priority_witness :
  (exists r, r ∈ snapshot ranked_state /\ matches example_query r = true)
  /\ exists i r,
       fst (selectRule (Some example_query) ranked_state) = Return (SRule r)
       /\ snapshot ranked_state !! i = Some r
       /\ matches example_query r = true
       /\ (forall j r', snapshot ranked_state !! j = Some r' ->
             matches example_query r' = true ->
             (priority_number r' <=? priority_number r)%float = true)
       /\ (forall j r', snapshot ranked_state !! j = Some r' ->
             matches example_query r' = true ->
             j < i -> (priority_number r' <? priority_number r)%float = true).
Proof.
  assert (H : exists r, r ∈ snapshot ranked_state
                        /\ matches example_query r = true).
  { exists (mapRowToRule example_header example_row_R3).
    split; [| vm_compute; reflexivity].
    rewrite ranked_snapshot. do 2 apply list_elem_of_further.
    apply list_elem_of_here. }
  split; [exact H |].
  exact (selectRule_highest_priority ranked_state example_query H).
Defined.

(** C2. When no rule of the array matches the query on all four
    attributes and some rule of the array has priority 100,
    [selectRule] returns the first rule of priority 100 in the order of
    the array, whatever the four attributes of that rule are. *)
Theorem selectRule_fallback (st : state) (q : query) :
  (forall r', r' ∈ snapshot st -> matches q r' = false) ->
  (exists r', r' ∈ snapshot st /\ is_fallback r' = true) ->
  exists i r,
    fst (selectRule (Some q) st) = Return (SRule r)
    /\ snapshot st !! i = Some r
    /\ is_fallback r = true
    /\ forall j r', j < i -> snapshot st !! j = Some r' ->
         is_fallback r' = false.
Proof.
  intros Hnone (r0 & Hin & Hr0). rewrite selectRule_result. unfold choose.
  rewrite (filter_nil_iff (matches q)) by done.
  apply list_elem_of_In in Hin.
  destruct (filter_head_first is_fallback _ r0 Hin Hr0)
    as (i & r & Hhead & Hi & Hr & Hfirst).
  exists i, r. split; [| done].
  by destruct (List.filter is_fallback (snapshot st)); simplify_eq/=.
Qed.

Lemma selectRule_fallback_witness :
  (forall r', r' ∈ snapshot example_state -> matches other_query r' = false)
  /\ (exists r', r' ∈ snapshot example_state /\ is_fallback r' = true)
  /\ exists i r,
       fst (selectRule (Some other_query) example_state) = Return (SRule r)
       /\ snapshot example_state !! i = Some r
       /\ is_fallback r = true
       /\ forall j r', j < i -> snapshot example_state !! j = Some r' ->
            is_fallback r' = false.
Proof.
  assert (H1 : forall r', r' ∈ snapshot example_state ->
                          matches other_query r' = false).
  { rewrite example_snapshot.
    intros r' [-> | [-> | []%elem_of_nil]%elem_of_cons]%elem_of_cons;
      vm_compute; reflexivity. }
  assert (H2 : exists r', r' ∈ snapshot example_state
                          /\ is_fallback r' = true).
  { exists example_SYS. split; [| vm_compute; reflexivity].
    rewrite example_snapshot. apply list_elem_of_further, list_elem_of_here. }
  repeat (split; [assumption |]).
  exact (selectRule_fallback example_state other_query H1 H2).
Defined.

(** C3, as the code has it.  [selectRule] throws when it is called
    without an input object, and only then: given an input object it
    returns, whichever of the four attributes are missing; a missing
    attribute is [undefined] in the four comparisons.  The check that
    the four attributes are present and not empty is made by the request
    handler, which answers 400 and does not call [selectRule]. *)
Theorem selectRule_validation (st : state) :
  selectRule None st = (Throw "selectRule requires an input object.", st)
  /\ (forall q, exists st',
        selectRule (Some q) st = (Return (choose q (snapshot st)), st'))
  /\ (forall req_body,
        let q := default (Query VUndefined VUndefined VUndefined VUndefined)
                   req_body in
        ToBoolean (usage q) = false \/ ToBoolean (audience q) = false
        \/ ToBoolean (density q) = false \/ ToBoolean (tone q) = false ->
        exists body,
          decide_font req_body st = (Return (Response 400 body), st)).
Proof.
  split; [done |]. split.
  { intros q. destruct (selectRule_run q st) as (r & st' & -> & -> & _).
    by exists st'. }
  intros req_body q H. unfold decide_font. fold q.
  assert (E : negb (ToBoolean (usage q)) || negb (ToBoolean (audience q))
              || negb (ToBoolean (density q)) || negb (ToBoolean (tone q))
              = true).
  { destruct H as [-> | [-> | [-> | ->]]]; simpl;
      rewrite ?orb_true_r; reflexivity. }
  rewrite E. by eexists.
Qed.

(** C3 as stated fails: called with an input object that has no
    [usage], [selectRule] returns a rule. *)
Lemma selectRule_accepts_missing_field :
  usage (Query VUndefined (VString (str "teen")) (VString (str "high"))
           (VString (str "friendly")))
  = VUndefined
  /\ fst (selectRule
            (Some (Query VUndefined (VString (str "teen"))
                     (VString (str "high")) (VString (str "friendly"))))
            example_state)
     = Return (SRule example_SYS).
Proof. split; [reflexivity |]. vm_compute. reflexivity. Qed.

(** C7. When no rule of the array matches the query on all four
    attributes and no rule of the array has priority 100, [selectRule]
    returns [null]: the call returns, it does not throw. *)
Theorem selectRule_no_match (st : state) (q : query) :
  (forall r, r ∈ snapshot st -> matches q r = false) ->
  (forall r, r ∈ snapshot st -> is_fallback r = false) ->
  exists st', selectRule (Some q) st = (Return SNull, st').
Proof.
  intros Hnone Hnofb.
  destruct (selectRule_run q st) as (r & st' & Hrun & -> & _).
  exists st'. rewrite Hrun. unfold choose.
  by rewrite (filter_nil_iff (matches q)), (filter_nil_iff is_fallback).
Qed.

Lemma selectRule_no_match_witness :
  (forall r, r ∈ snapshot state_without_fallback ->
             matches other_query r = false)
  /\ (forall r, r ∈ snapshot state_without_fallback -> is_fallback r = false)
  /\ exists st',
       selectRule (Some other_query) state_without_fallback
       = (Return SNull, st').
Proof.
  assert (H1 : forall r, r ∈ snapshot state_without_fallback ->
                         matches other_query r = false).
  { rewrite snapshot_without_fallback.
    intros r [-> | []%elem_of_nil]%elem_of_cons. vm_compute. reflexivity. }
  assert (H2 : forall r, r ∈ snapshot state_without_fallback ->
                         is_fallback r = false).
  { rewrite snapshot_without_fallback.
    intros r [-> | []%elem_of_nil]%elem_of_cons. vm_compute. reflexivity. }
  repeat (split; [assumption |]).
  exact (selectRule_no_match state_without_fallback other_query H1 H2).
Defined.

(** C8. A call of [selectRule] leaves every array that existed before
    it, in particular the rules array, with the same elements in the same
    order, and leaves both modules' variables naming the same arrays:
    it filters into new arrays and sorts one of those. *)
Theorem selectRule_leaves_rules (input : option query) (st : state) :
  heap st ⊆ heap (snd (selectRule input st))
  /\ engine_rules (snd (selectRule input st)) = engine_rules st
  /\ loader_rules (snd (selectRule input st)) = loader_rules st
  /\ (is_Some (heap st !! engine_rules st) ->
      snapshot (snd (selectRule input st)) = snapshot st).
Proof.
  pose proof (selectRule_extends input st) as Hext.
  pose proof Hext as (Hsub & Hl & He).
  repeat (split; [done |]). intros Hsome. by apply extends_snapshot.
Qed.

(** ** The store *)

(** C4. When a load cycle fails, because [createSheetsClient] throws or
    because the request to the source is rejected, [loadRules] throws
    and the state is what it was: the rules array is unchanged, and any
    query returns after the failed reload what it returned before. *)
Theorem failed_load_keeps_rules (src : source) (st : state)
    (message : string) :
  client src = Throw message
  \/ (client src = Return tt /\ fetch src = Throw message) ->
  loadRules src st = (Throw message, st)
  /\ reload src st = st
  /\ snapshot (reload src st) = snapshot st
  /\ forall input, selectRule input (reload src st) = selectRule input st.
Proof.
  intros H.
  assert (Hload : loadRules src st = (Throw message, st)).
  { destruct H as [Hc | [Hc Hf]].
    - by apply loadRules_client_throws.
    - by apply loadRules_fetch_rejects. }
  assert (Hre : reload src st = st) by (unfold reload; by rewrite Hload).
  rewrite Hre. done.
Qed.

Lemma failed_load_keeps_rules_witness :
  (client unavailable_source = Throw "The service is currently unavailable."
   \/ (client unavailable_source = Return tt
       /\ fetch unavailable_source
          = Throw "The service is currently unavailable."))
  /\ loadRules unavailable_source example_state
     = (Throw "The service is currently unavailable.", example_state)
  /\ reload unavailable_source example_state = example_state
  /\ snapshot (reload unavailable_source example_state)
     = snapshot example_state
  /\ forall input,
       selectRule input (reload unavailable_source example_state)
       = selectRule input example_state.
Proof.
  assert (H : client unavailable_source
              = Throw "The service is currently unavailable."
              \/ (client unavailable_source = Return tt
                  /\ fetch unavailable_source
                     = Throw "The service is currently unavailable."))
    by (right; split; reflexivity).
  split; [exact H |].
  exact (failed_load_keeps_rules unavailable_source example_state _ H).
Defined.

(** C9. When a load cycle succeeds with no row at all, [loadRules] makes
    a new empty array and binds its own variable [rules] to it; the array
    that [ruleEngine.js] holds is another one and keeps its elements, so
    [selectRule] returns after the load what it returned before. *)
Theorem empty_load_rebinds_rules (src : source) (st : state)
    (values : option (list row)) :
  well_formed st ->
  client src = Return tt -> fetch src = Return values ->
  default [] values = [] ->
  exists l st',
    loadRules src st = (Return l, st')
    /\ heap st !! l = None
    /\ heap st' !! l = Some []
    /\ loader_rules st' = l
    /\ engine_rules st' = engine_rules st
    /\ l <> engine_rules st
    /\ heap st' !! engine_rules st = heap st !! engine_rules st
    /\ snapshot st' = snapshot st
    /\ forall input, fst (selectRule input st') = fst (selectRule input st).
Proof.
  intros [_ [xs Hxs]] Hc Hf Hv.
  rewrite (loadRules_empty src st values) by done.
  pose proof (fresh_lookup (heap st)) as Hfresh.
  assert (Hne : fresh (dom (heap st)) <> engine_rules st) by congruence.
  assert (Hsnap : snapshot
                    (State (<[fresh (dom (heap st)) := []]> (heap st))
                       (fresh (dom (heap st))) (engine_rules st))
                  = snapshot st).
  { unfold snapshot. simpl. by rewrite lookup_insert_ne. }
  eexists _, _. split; [reflexivity |]. simpl.
  split; [done |]. split; [apply lookup_insert_eq |].
  split; [done |]. split; [done |]. split; [done |].
  split; [by apply lookup_insert_ne |]. split; [done |].
  intros input. by apply selectRule_same_snapshot.
Qed.

Lemma empty_load_rebinds_rules_witness :
  well_formed example_state
  /\ exists l st',
       loadRules empty_source example_state
       = (Return l, st')
       /\ heap example_state !! l = None
       /\ heap st' !! l = Some []
       /\ loader_rules st' = l
       /\ engine_rules st' = engine_rules example_state
       /\ l <> engine_rules example_state
       /\ heap st' !! engine_rules example_state
          = heap example_state !! engine_rules example_state
       /\ snapshot st' = snapshot example_state
       /\ forall input,
            fst (selectRule input st') = fst (selectRule input example_state).
Proof.
  assert (H : well_formed example_state)
    by (split; vm_compute; eexists; reflexivity).
  split; [exact H |].
  exact (empty_load_rebinds_rules empty_source
           example_state None H eq_refl eq_refl eq_refl).
Defined.

(** C10. In every history of loads, reloads, queries and requests, a
    call of [loadRules] whose response has at least one row returns,
    unless the rules are more than a call takes arguments, and then it
    throws.  Either way, from then on every rule of the array that
    [selectRule] reads has a non-empty string as its [rule_id]: no later
    event puts a rule without one into it. *)
Theorem loaded_rules_have_rule_id (es : list event) (src : source)
    (header : row) (dataRows : list row) (later : list event) :
  client src = Return tt ->
  fetch src = Return (Some (header :: dataRows)) ->
  exists c st',
    loadRules src (run es initial_state) = (c, st')
    /\ (if (N.of_nat (length (List.filter (is_kept header) dataRows))
            <=? max_arguments src)%N
        then exists l, c = Return l
        else exists message, c = Throw message)
    /\ Forall has_rule_id (snapshot st')
    /\ Forall has_rule_id (snapshot (run later st')).
Proof.
  intros Hc Hf.
  pose proof (run_invariant es initial_state invariant_initial) as Hinv.
  pose proof (loadRules_invariant src _ Hinv) as Hinv'.
  destruct Hinv as ([[old Hold] _] & _).
  rewrite (loadRules_rows src _ (Some (header :: dataRows)) header dataRows old)
    in * by done.
  rewrite loadedRules_kept, length_fmap in *.
  destruct (_ <=? _)%N; eexists _, _; (split; [reflexivity |]);
    (split; [by eexists |]); simpl in Hinv';
    (split; [apply Hinv' | by apply run_invariant]).
Qed.

Lemma loaded_rules_have_rule_id_witness :
  client example_source = Return tt
  /\ fetch example_source = Return (Some (example_header :: example_rows))
  /\ exists c st',
       loadRules example_source
         (run [Select (Some other_query)]
            initial_state)
       = (c, st')
       /\ (if (N.of_nat (length (List.filter (is_kept example_header)
                                   example_rows))
               <=? max_arguments example_source)%N
           then exists l, c = Return l
           else exists message, c = Throw message)
       /\ Forall has_rule_id (snapshot st')
       /\ Forall has_rule_id
            (snapshot (run [Request (Some example_query)] st')).
Proof.
  split; [reflexivity |]. split; [reflexivity |].
  exact (loaded_rules_have_rule_id
           [Select (Some other_query)]
           example_source example_header example_rows
           [Request (Some example_query)] eq_refl eq_refl).
Defined.

(** ** The parser *)

(** C5. Given a header row and data rows, [loadRules] keeps the rows
    that have a cell and a text under [rule_id], and drops the others.
    When the kept rows are no more than a call takes arguments, it
    returns, and the array that it fills (the array that [selectRule]
    reads, while both modules name the same one) holds one rule for
    each kept row, in the order of the rows; the rule has one property
    for each column name, holding the trimmed cell of the row in the
    last column of that name (under [priority], the number read from
    it), where the first column is named [rule_id] and every other
    column by its trimmed header; a column with an empty name gives no
    property.  The code departs from this in two places: a column named
    [__proto__] gives no property either, and when the kept rows are
    more than a call takes arguments, [loadRules] throws after it has
    emptied the array, so that no row is kept. *)
Theorem loadRules_keeps_rows_with_rule_id (src : source) (st : state)
    (header : row) (dataRows : list row) (old : list Rule) :
  client src = Return tt ->
  fetch src = Return (Some (header :: dataRows)) ->
  heap st !! loader_rules st = Some old ->
  exists c st',
    loadRules src st = (c, st')
    /\ (loader_rules st = engine_rules st -> snapshot st' = loaded st')
    /\ if (N.of_nat (length (List.filter (is_kept header) dataRows))
           <=? max_arguments src)%N
       then c = Return (loader_rules st)
            /\ Forall2 (is_rule_of header)
                 (List.filter (is_kept header) dataRows) (loaded st')
       else (exists message, c = Throw message) /\ loaded st' = [].
Proof.
  intros Hc Hf Hold.
  rewrite (loadRules_rows src st (Some (header :: dataRows)) header dataRows old)
    by done.
  rewrite loadedRules_kept, length_fmap.
  destruct (_ <=? _)%N; eexists _, _; (split; [reflexivity |]);
    (split; [unfold snapshot, loaded; simpl; by intros -> |]);
    unfold loaded; simpl; rewrite lookup_insert_eq; simpl.
  - split; [done |]. apply Forall2_fmap_r, Forall_Forall2_diag.
    apply List.Forall_forall. intros cells _.
    apply mapRowToRule_is_rule_of.
  - split; [by eexists | done].
Qed.

(** The theorem on a sheet of four rows, two of which are kept, and on
    a sheet with more rows than a call takes arguments, loaded when the
    array holds the two rules of the example. *)
Lemma loadRules_keeps_rows_with_rule_id_witness :
  (client mixed_source = Return tt
   /\ fetch mixed_source = Return (Some (example_header :: mixed_rows))
   /\ heap initial_state !! loader_rules initial_state = Some []
   /\ exists st',
        loadRules mixed_source initial_state
        = (Return (loader_rules initial_state), st')
        /\ snapshot st' = loaded st'
        /\ Forall2 (is_rule_of example_header)
             [example_row_R1; example_row_SYS] (loaded st'))
  /\ (client large_source = Return tt
      /\ fetch large_source = Return (Some ([str "rule_id"] :: large_rows))
      /\ heap example_state !! loader_rules example_state = Some example_rules
      /\ exists message st',
           loadRules large_source example_state = (Throw message, st')
           /\ snapshot st' = loaded st'
           /\ loaded st' = []).
Proof.
  assert (Hold : heap example_state !! loader_rules example_state
                 = Some example_rules) by (vm_compute; reflexivity).
  split; (split; [reflexivity |]); (split; [reflexivity |]);
    (split; [done |]).
  - destruct (loadRules_keeps_rows_with_rule_id mixed_source initial_state
                example_header mixed_rows [] eq_refl eq_refl eq_refl)
      as (c & st' & Hrun & Hsame & Hkept).
    change (List.filter (is_kept example_header) mixed_rows)
      with [example_row_R1; example_row_SYS] in Hkept.
    change (N.of_nat (length [example_row_R1; example_row_SYS])
            <=? max_arguments mixed_source)%N
      with true in Hkept.
    destruct Hkept as [-> Hrules]. exists st'.
    split; [exact Hrun |]. split; [by apply Hsame | exact Hrules].
  - destruct (loadRules_keeps_rows_with_rule_id large_source example_state
                [str "rule_id"] large_rows example_rules eq_refl eq_refl Hold)
      as (c & st' & Hrun & Hsame & Hkept).
    unfold large_rows in Hkept. rewrite filter_replicate in Hkept.
    change (is_kept [str "rule_id"] [str "R"]) with true in Hkept.
    cbv iota in Hkept. rewrite length_replicate, N2Nat.id in Hkept.
    change (125731 <=? max_arguments large_source)%N with false in Hkept.
    destruct Hkept as [[message ->] Hnone]. exists message, st'.
    split; [exact Hrun |]. split; [by apply Hsame | exact Hnone].
Defined.

(** C6, as the code has it.  When a rule has a property [priority], it
    is the number that [Number] gives for the trimmed cell of the last
    column named [priority] when that number is finite, and [0]
    otherwise; it is always a finite number.  It need not be an
    integer. *)
Theorem priority_is_a_finite_number (headers cells : row) (v : value) :
  mapRowToRule headers cells !! str "priority" = Some v ->
  exists i,
    last_column (str "priority") 0 headers = Some i
    /\ v = VNumber
             (if Number_isFinite (StringToNumber (cell_text cells i))
              then StringToNumber (cell_text cells i) else 0%float)
    /\ exists n, v = VNumber n /\ Number_isFinite n = true.
Proof.
  rewrite mapRowToRule_lookup by done.
  destruct (last_column (str "priority") 0 headers) as [i |]; [| done].
  simpl fmap. intros [= <-]. exists i. split; [done |].
  change (field_value (str "priority") (cell_text cells i))
    with (VNumber
            (if Number_isFinite (StringToNumber (cell_text cells i))
             then StringToNumber (cell_text cells i) else 0%float)).
  split; [done |]. eexists. split; [reflexivity |].
  by destruct (Number_isFinite (StringToNumber (cell_text cells i))) eqn:E.
Qed.

Lemma priority_is_a_finite_number_witness :
  mapRowToRule example_header example_row_SYS !! str "priority"
  = Some (VNumber 100%float)
  /\ exists i,
       last_column (str "priority") 0 example_header = Some i
       /\ VNumber 100%float
          = VNumber
              (if Number_isFinite
                    (StringToNumber (cell_text example_row_SYS i))
               then StringToNumber (cell_text example_row_SYS i)
               else 0%float)
       /\ exists n, VNumber 100%float = VNumber n /\ Number_isFinite n = true.
Proof.
  assert (H : mapRowToRule example_header example_row_SYS !! str "priority"
              = Some (VNumber 100%float)) by (vm_compute; reflexivity).
  split; [exact H |].
  exact (priority_is_a_finite_number example_header example_row_SYS
           (VNumber 100%float) H).
Defined.

(** C6 as stated fails: a cell that reads 1.5 gives the priority 1.5,
    which is no integer. *)
Lemma priority_need_not_be_an_integer :
  get (mapRowToRule (str <$> ["rule_id"; "priority"]%string)
         (str <$> ["R1"; "1.5"]%string))
      (str "priority")
  = VNumber 1.5%float
  /\ Number_isInteger 1.5%float = false.
Proof. split; vm_compute; reflexivity. Qed.

(** * Further properties *)

(** ** Auxiliary facts *)

Lemma sort_insert_elements {A} (compareFn : A -> A -> float) (a y : A)
    (xs : list A) :
  In y (sort_insert compareFn a xs) <-> y = a \/ In y xs.
Proof.
  induction xs as [| b xs IH]; cbn [sort_insert].
  - simpl. intuition.
  - destruct (0 <? compareFn a b)%float; simpl; [rewrite IH |]; intuition.
Qed.

Lemma sorted_by_elements {A} (compareFn : A -> A -> float) (y : A)
    (xs : list A) :
  In y (sorted_by compareFn xs) <-> In y xs.
Proof.
  induction xs as [| a xs IH]; cbn [sorted_by]; [done |].
  rewrite sort_insert_elements, IH. simpl. intuition.
Qed.

(** What [choose] gives is [null] or a rule of the array that matches the
    query or, when none does, has priority 100. *)
Lemma choose_cases (q : query) (rules : list Rule) :
  (choose q rules = SNull
   /\ forall r, r ∈ rules -> matches q r = false /\ is_fallback r = false)
  \/ exists x,
       choose q rules = SRule x /\ x ∈ rules
       /\ (matches q x = true
           \/ (is_fallback x = true
               /\ forall r, r ∈ rules -> matches q r = false)).
Proof.
  unfold choose.
  destruct (List.filter (matches q) rules) as [| c cs] eqn:Hm.
  - assert (Hnone : forall r, r ∈ rules -> matches q r = false).
    { intros r Hr%list_elem_of_In. destruct (matches q r) eqn:E; [| done].
      assert (Hin : In r (List.filter (matches q) rules))
        by (by apply filter_In).
      by rewrite Hm in Hin. }
    destruct (List.filter is_fallback rules) as [| x xs] eqn:Hf.
    + left. split; [done |]. intros r Hr. split; [by apply Hnone |].
      destruct (is_fallback r) eqn:E; [| done].
      assert (Hin : In r (List.filter is_fallback rules))
        by (apply filter_In; split; [by apply list_elem_of_In | done]).
      by rewrite Hf in Hin.
    + right. exists x.
      assert (Hin : In x (List.filter is_fallback rules))
        by (rewrite Hf; by left).
      apply filter_In in Hin as [Hin Hx]. split; [done |].
      split; [by apply list_elem_of_In |]. by right.
  - right. pose proof (sorted_by_length by_priority (c :: cs)) as Hlen.
    destruct (sorted_by by_priority (c :: cs)) as [| x xs] eqn:Hs; [done |].
    exists x.
    assert (Hin : In x (List.filter (matches q) rules)).
    { rewrite Hm. apply (sorted_by_elements by_priority). rewrite Hs.
      by left. }
    apply filter_In in Hin as [Hin Hx]. split; [done |].
    split; [by apply list_elem_of_In |]. by left.
Qed.

(** The handler returns the response computed from the array. *)
Lemma decide_font_run (req_body : option query) (st : state) :
  exists st',
    decide_font req_body st
    = (Return (response_for req_body (snapshot st)), st')
    /\ extends st st'.
Proof.
  unfold decide_font, response_for, complete, query_of.
  generalize (default (Query VUndefined VUndefined VUndefined VUndefined)
                req_body).
  intros q. cbv zeta.
  destruct (ToBoolean (usage q)), (ToBoolean (audience q)),
    (ToBoolean (density q)), (ToBoolean (tone q)); cbn [negb orb andb];
    try (exists st; split; [reflexivity | apply extends_refl]).
  unfold bind.
  destruct (selectRule_run q st) as (r & st' & -> & -> & Hext).
  exists st'. split; [| done]. by destruct (choose q (snapshot st)).
Qed.

Lemma extends_without_loads (es : list event) (st : state) :
  forallb (fun e => negb (is_load e)) es = true -> extends st (run es st).
Proof.
  revert st. induction es as [| e es IH]; intros st Hes; [apply extends_refl |].
  simpl in Hes. apply andb_prop in Hes as [He Hes]. simpl.
  eapply extends_trans; [| by apply IH].
  destruct e as [src | input | req_body]; [done | |]; simpl.
  - apply selectRule_extends.
  - apply decide_font_extends.
Qed.

(** What a load cycle meets, by cases. *)
Lemma fails_cases (src : source) :
  fails src = true ->
  exists message,
    client src = Throw message
    \/ (client src = Return tt /\ fetch src = Throw message).
Proof.
  unfold fails. destruct (client src) as [[] | m]; [| by eexists; left].
  destruct (fetch src) as [v | m]; [done |]. by eexists; right.
Qed.

Lemma succeeds_cases (src : source) :
  fails src = false ->
  exists values, client src = Return tt /\ fetch src = Return values.
Proof.
  unfold fails. destruct (client src) as [[] | m]; [| done].
  destruct (fetch src) as [v | m]; [| done]. by eexists.
Qed.

Lemma finds_no_row_cases (src : source) :
  finds_no_row src = true ->
  exists values,
    client src = Return tt /\ fetch src = Return values
    /\ default [] values = [].
Proof.
  unfold finds_no_row. destruct (client src) as [[] | m]; [| done].
  destruct (fetch src) as [v | m]; [| done].
  intros H%bool_decide_eq_true. by eexists.
Qed.

Lemma overflows_cases (src : source) (values : option (list row)) :
  client src = Return tt -> fetch src = Return values ->
  overflows src
  = negb (N.of_nat (length (rules_of values)) <=? max_arguments src)%N.
Proof. intros Hc Hf. unfold overflows. by rewrite Hc, Hf. Qed.

(** The state after a load, by what the cycle met. *)
Lemma reload_cases (src : source) (st : state) :
  is_Some (heap st !! loader_rules st) ->
  (fails src = true /\ reload src st = st)
  \/ (finds_no_row src = true /\ overflows src = false
      /\ reload src st
         = State (<[fresh (dom (heap st)) := []]> (heap st))
             (fresh (dom (heap st))) (engine_rules st))
  \/ (exists header dataRows,
        fails src = false /\ finds_no_row src = false
        /\ fetch src = Return (Some (header :: dataRows))
        /\ reload src st
           = State (<[loader_rules st :=
                       if overflows src then []
                       else loadedRules (normalize_headers header) dataRows]>
                      (heap st))
               (loader_rules st) (engine_rules st)).
Proof.
  intros [old Hold]. rewrite reload_eq. unfold fails, finds_no_row.
  destruct (client src) as [[] | m] eqn:Hc.
  2: { left. by rewrite (loadRules_client_throws _ _ m). }
  destruct (fetch src) as [values | m] eqn:Hf.
  2: { left. by rewrite (loadRules_fetch_rejects _ _ m). }
  right. rewrite (overflows_cases src values) by done. unfold rules_of.
  destruct (default [] values) as [| header dataRows] eqn:Hv.
  - left. rewrite bool_decide_true by done.
    split; [done |]. split; [by destruct (max_arguments src) |].
    by rewrite (loadRules_empty _ _ values).
  - right. exists header, dataRows. rewrite bool_decide_false by done.
    rewrite (loadRules_rows _ _ values header dataRows old) by done.
    destruct values as [rows |]; simpl in Hv; [| done]. subst rows.
    by destruct (_ <=? _)%N.
Qed.

(** ** The matcher *)

(** X1. Called with an input object, [selectRule] returns: it never
    throws and never returns [undefined].  What it returns is [null], and
    then no rule of the array matches the query or has priority 100, or a
    rule of the array that matches the query or, when none matches, has
    priority 100. *)
Theorem selectRule_returns_null_or_rule_of_array (q : query) (st : state) :
  exists r st',
    selectRule (Some q) st = (Return r, st')
    /\ ((r = SNull
         /\ forall x, x ∈ snapshot st ->
              matches q x = false /\ is_fallback x = false)
        \/ exists x,
             r = SRule x /\ x ∈ snapshot st
             /\ (matches q x = true
                 \/ (is_fallback x = true
                     /\ forall y, y ∈ snapshot st -> matches q y = false))).
Proof.
  destruct (selectRule_run q st) as (r & st' & Hrun & -> & _).
  exists (choose q (snapshot st)), st'. split; [done |].
  apply choose_cases.
Qed.

(** X2. Queries do not affect one another: after any number of calls of
    [selectRule] and of requests to the handler, with no load in
    between, [selectRule] returns for every input what it returned
    before them. *)
Theorem queries_do_not_interfere (st : state) (es : list event)
    (input : option query) :
  is_Some (heap st !! engine_rules st) ->
  forallb (fun e => negb (is_load e)) es = true ->
  fst (selectRule input (run es st)) = fst (selectRule input st).
Proof.
  intros Hsome Hes. apply selectRule_same_snapshot.
  apply extends_snapshot; [by apply extends_without_loads | done].
Qed.

Lemma queries_do_not_interfere_witness :
  is_Some (heap example_state !! engine_rules example_state)
  /\ forallb (fun e => negb (is_load e))
       [Select (Some example_query); Request (Some other_query); Select None]
     = true
  /\ fst (selectRule (Some example_query)
            (run [Select (Some example_query); Request (Some other_query);
                  Select None] example_state))
     = fst (selectRule (Some example_query) example_state).
Proof.
  assert (H : is_Some (heap example_state !! engine_rules example_state))
    by (vm_compute; eexists; reflexivity).
  split; [exact H |]. split; [reflexivity |].
  exact (queries_do_not_interfere example_state
           [Select (Some example_query); Request (Some other_query);
            Select None]
           (Some example_query) H eq_refl).
Defined.

(** X3. The fallback does not look at the query: two queries that no
    rule of the array matches get the same result. *)
Theorem fallback_ignores_query (st : state) (q1 q2 : query) :
  (forall r, r ∈ snapshot st -> matches q1 r = false) ->
  (forall r, r ∈ snapshot st -> matches q2 r = false) ->
  fst (selectRule (Some q1) st) = fst (selectRule (Some q2) st).
Proof.
  intros H1 H2. rewrite !selectRule_result. unfold choose.
  by rewrite (filter_nil_iff (matches q1)), (filter_nil_iff (matches q2)).
Qed.

Lemma fallback_ignores_query_witness :
  (forall r, r ∈ snapshot example_state -> matches other_query r = false)
  /\ (forall r, r ∈ snapshot example_state ->
        matches (Query VNull VNull VNull VNull) r = false)
  /\ fst (selectRule (Some other_query) example_state)
     = fst (selectRule (Some (Query VNull VNull VNull VNull)) example_state).
Proof.
  assert (H1 : forall r, r ∈ snapshot example_state ->
                         matches other_query r = false).
  { rewrite example_snapshot.
    intros r [-> | [-> | []%elem_of_nil]%elem_of_cons]%elem_of_cons;
      vm_compute; reflexivity. }
  assert (H2 : forall r, r ∈ snapshot example_state ->
                         matches (Query VNull VNull VNull VNull) r = false).
  { rewrite example_snapshot.
    intros r [-> | [-> | []%elem_of_nil]%elem_of_cons]%elem_of_cons;
      vm_compute; reflexivity. }
  repeat (split; [assumption |]).
  exact (fallback_ignores_query example_state other_query
           (Query VNull VNull VNull VNull) H1 H2).
Defined.

(** ** The request handler *)

Lemma json_object_lookup_None (fields : list (js_string * value))
    (k : js_string) :
  k ∉ fields.*1 -> json_object fields !! k = None.
Proof.
  induction fields as [| [k' v'] fields IH]; intros Hk; [done |].
  cbn [json_object foldr fmap list_fmap fst snd] in *.
  fold (json_object fields). apply not_elem_of_cons in Hk as [Hne ?].
  destruct (json_property v'); [rewrite lookup_insert_ne by done |];
    by apply IH.
Qed.

Lemma json_object_lookup (fields : list (js_string * value))
    (k : js_string) (v : value) :
  NoDup fields.*1 -> (k, v) ∈ fields ->
  json_object fields !! k = json_property v.
Proof.
  induction fields as [| [k' v'] fields IH]; intros Hnodup Hin;
    [by apply elem_of_nil in Hin |].
  apply NoDup_cons in Hnodup as [Hfresh Hnodup].
  cbn [json_object foldr fst snd]. fold (json_object fields).
  apply elem_of_cons in Hin as [[= -> ->] | Hin].
  - destruct (json_property v') eqn:E; [apply lookup_insert_eq |].
    by apply json_object_lookup_None.
  - assert (k' <> k).
    { intros ->. apply Hfresh. apply list_elem_of_fmap. by exists (k, v). }
    destruct (json_property v'); [rewrite lookup_insert_ne by done |];
      by apply IH.
Qed.

(** The body of a response of status 200: of the four properties read
    from the rule, those that [JSON.stringify] keeps. *)
Lemma output_body_lookup (r : Rule) (k : js_string) :
  json_object
    [(str "rule_id", get r (str "rule_id"));
     (str "font_style", get r (str "font_style"));
     (str "weight", get r (str "weight"));
     (str "spacing", get r (str "spacing"))] !! k
  = if bool_decide (k ∈ output_fields) then json_property (get r k) else None.
Proof.
  case_bool_decide as Hin.
  - apply json_object_lookup.
    + apply (bool_decide_unpack _). vm_compute. reflexivity.
    + unfold output_fields in Hin. set_unfold.
      destruct Hin as [-> | [-> | [-> | [-> | []]]]]; auto 10.
  - apply json_object_lookup_None. exact Hin.
Qed.

(** X4. The handler always answers, with status 400, 404 or 200: 400
    exactly when one of the four attributes of the request is missing or
    falsy; otherwise 404 exactly when no rule of the array matches the
    request or has priority 100; otherwise 200. *)
Theorem decide_font_status (req_body : option query) (st : state) :
  exists resp st',
    decide_font req_body st = (Return resp, st')
    /\ ((complete (query_of req_body) = false /\ status resp = 400)
        \/ (complete (query_of req_body) = true
            /\ (forall r, r ∈ snapshot st ->
                  matches (query_of req_body) r = false
                  /\ is_fallback r = false)
            /\ status resp = 404)
        \/ (complete (query_of req_body) = true
            /\ (exists r, r ∈ snapshot st
                          /\ (matches (query_of req_body) r = true
                              \/ is_fallback r = true))
            /\ status resp = 200)).
Proof.
  destruct (decide_font_run req_body st) as (st' & Hrun & _).
  eexists _, st'. split; [exact Hrun |]. unfold response_for.
  destruct (complete (query_of req_body)); [| by left].
  right.
  destruct (choose_cases (query_of req_body) (snapshot st))
    as [[-> Hnone] | (x & -> & Hx & Hwhy)].
  - by left.
  - right. split; [done |]. split; [| done]. exists x. split; [done |].
    destruct Hwhy as [? | [? _]]; auto.
Qed.

(** Every rule that a history puts into the arrays is the rule of a
    row. *)
Lemma loadedRules_from_rows (headers : row) (dataRows : list row) :
  Forall from_row (loadedRules headers dataRows).
Proof.
  apply List.Forall_forall. intros r [Hin _]%filter_In.
  apply list_elem_of_In, list_elem_of_fmap in Hin as (cells & -> & _).
  by exists headers, cells.
Qed.

Lemma rules_from_rows_extends (st st' : state) :
  extends st st' -> rules_from_rows st -> rules_from_rows st'.
Proof.
  intros Hext (Hwf & Hs & Hl). pose proof Hwf as [? ?].
  split; [by eapply extends_well_formed |].
  by rewrite (extends_snapshot st st'), (extends_loaded st st').
Qed.

Lemma step_from_rows (st : state) (e : event) :
  rules_from_rows st -> rules_from_rows (step st e).
Proof.
  intros Hinv. destruct e as [src | input | req_body]; simpl.
  - pose proof Hinv as ([Hl [xs Hxs]] & Hs & Hlo).
    assert (Hnil : Forall from_row []) by apply Forall_nil_2.
    unfold snapshot in Hs. rewrite Hxs in Hs. simpl in Hs.
    destruct (reload_cases src st Hl)
      as [[_ ->] | [(_ & _ & ->) | (h & d & _ & _ & _ & ->)]]; [done | |].
    + pose proof (fresh_lookup (heap st)) as Hfresh.
      assert (Hf : fresh (dom (heap st)) <> engine_rules st) by congruence.
      unfold rules_from_rows, well_formed, snapshot, loaded. simpl.
      rewrite lookup_insert_eq, lookup_insert_ne, Hxs by done.
      split; [split; by eexists |]. done.
    + assert (Hnew : Forall from_row
                       (if overflows src then []
                        else loadedRules (normalize_headers h) d))
        by (destruct (overflows src);
            [done | apply loadedRules_from_rows]).
      unfold rules_from_rows, well_formed, snapshot, loaded. simpl.
      rewrite lookup_insert_eq. simpl.
      destruct (decide (loader_rules st = engine_rules st)) as [E | E].
      * rewrite <- E, lookup_insert_eq. simpl.
        split; [split; by eexists |]. done.
      * rewrite lookup_insert_ne, Hxs by done. simpl.
        split; [split; by eexists |]. done.
  - eapply rules_from_rows_extends; [apply selectRule_extends | done].
  - eapply rules_from_rows_extends; [apply decide_font_extends | done].
Qed.

Lemma run_from_rows (es : list event) :
  rules_from_rows (run es initial_state).
Proof.
  assert (H0 : rules_from_rows initial_state)
    by (split; [split; by eexists |]; split; apply Forall_nil_2).
  revert H0. generalize initial_state.
  induction es as [| e es IH]; intros st Hinv; [done |].
  simpl. apply IH. by apply step_from_rows.
Qed.

(** Of the properties that a response shows, the rule of a row has
    strings, which are sent as they are. *)
Lemma output_field_of_row (r : Rule) (k : js_string) :
  from_row r -> k ∈ output_fields -> json_property (get r k) = r !! k.
Proof.
  intros (headers & cells & ->) Hk. unfold get.
  assert (Hkey : k <> [] /\ k <> str "__proto__" /\ k <> str "priority").
  { unfold output_fields in Hk. set_unfold.
    destruct Hk as [-> | [-> | [-> | [-> | []]]]]; done. }
  destruct Hkey as (? & ? & ?). rewrite mapRowToRule_lookup by done.
  destruct (last_column k 0 headers) as [i |]; [| done].
  simpl. unfold field_value. by rewrite bool_decide_false.
Qed.

(** X5. In every history that starts when the modules are loaded, a
    response of status 200 is the rule that [selectRule] returns for
    the request, cut down to the properties [rule_id], [font_style],
    [weight] and [spacing]: it shows those of the four that the rule
    has, with their values, and nothing else.  A property that the rule
    lacks, because the sheet has no such column, is left out of the
    response. *)
Theorem decide_font_shows_output_fields (es : list event)
    (req_body : option query) (st' : state) (resp : response) :
  decide_font req_body (run es initial_state) = (Return resp, st') ->
  status resp = 200 ->
  exists r,
    r ∈ snapshot (run es initial_state)
    /\ fst (selectRule (Some (query_of req_body)) (run es initial_state))
       = Return (SRule r)
    /\ forall k,
         body resp !! k
         = if bool_decide (k ∈ output_fields) then r !! k else None.
Proof.
  intros Hresp Hstatus.
  destruct (decide_font_run req_body (run es initial_state))
    as (st1 & Hrun & _).
  rewrite Hrun in Hresp. injection Hresp as <- _. revert Hstatus.
  rewrite selectRule_result. unfold response_for.
  destruct (complete (query_of req_body)); [| done].
  destruct (choose_cases (query_of req_body) (snapshot (run es initial_state)))
    as [[-> _] | (x & -> & Hx & _)]; [done |].
  intros _. exists x. split; [done |]. split; [done |].
  intros k. cbn [body]. rewrite output_body_lookup.
  case_bool_decide as Hk; [| done]. apply output_field_of_row; [| done].
  destruct (run_from_rows es) as (_ & Hrows & _).
  rewrite List.Forall_forall in Hrows. by apply Hrows, list_elem_of_In.
Qed.

Lemma decide_font_shows_output_fields_witness :
  decide_font (Some example_query) (run [Load bare_source] initial_state)
  = (Return (response_for (Some example_query) (snapshot bare_state)),
     snd (decide_font (Some example_query) bare_state))
  /\ status (response_for (Some example_query) (snapshot bare_state)) = 200
  /\ exists r,
       r ∈ snapshot (run [Load bare_source] initial_state)
       /\ fst (selectRule (Some (query_of (Some example_query)))
                 (run [Load bare_source] initial_state))
          = Return (SRule r)
       /\ forall k,
            body (response_for (Some example_query) (snapshot bare_state))
              !! k
            = if bool_decide (k ∈ output_fields) then r !! k else None.
Proof.
  assert (H1 : decide_font (Some example_query)
                 (run [Load bare_source] initial_state)
               = (Return (response_for (Some example_query)
                            (snapshot bare_state)),
                  snd (decide_font (Some example_query) bare_state)))
    by (vm_compute; reflexivity).
  assert (H2 : status (response_for (Some example_query)
                         (snapshot bare_state)) = 200)
    by (vm_compute; reflexivity).
  split; [exact H1 |]. split; [exact H2 |].
  exact (decide_font_shows_output_fields [Load bare_source]
           (Some example_query) _ _ H1 H2).
Defined.

(** X6. The handler leaves every array that existed before the request
    with the same elements in the same order, and both modules'
    variables naming the same arrays. *)
Theorem decide_font_leaves_rules (req_body : option query) (st : state) :
  heap st ⊆ heap (snd (decide_font req_body st))
  /\ engine_rules (snd (decide_font req_body st)) = engine_rules st
  /\ loader_rules (snd (decide_font req_body st)) = loader_rules st
  /\ (is_Some (heap st !! engine_rules st) ->
      snapshot (snd (decide_font req_body st)) = snapshot st).
Proof.
  destruct (decide_font_run req_body st) as (st' & -> & Hext).
  pose proof Hext as (Hsub & Hl & He). simpl.
  repeat (split; [done |]). intros Hsome. by apply extends_snapshot.
Qed.

Lemma decide_font_leaves_rules_witness :
  is_Some (heap example_state !! engine_rules example_state)
  /\ snapshot (snd (decide_font (Some example_query) example_state))
     = snapshot example_state.
Proof.
  assert (H : is_Some (heap example_state !! engine_rules example_state))
    by (vm_compute; eexists; reflexivity).
  split; [exact H |].
  exact (proj2 (proj2 (proj2
           (decide_font_leaves_rules (Some example_query) example_state))) H).
Defined.

(** X7. In every history that starts when the modules are loaded, a
    response of status 200 carries a [rule_id] that is a non-empty
    string. *)
Theorem decide_font_rule_id (es : list event) (req_body : option query)
    (st' : state) (resp : response) :
  decide_font req_body (run es initial_state) = (Return resp, st') ->
  status resp = 200 ->
  exists s, body resp !! str "rule_id" = Some (VString s) /\ s <> [].
Proof.
  intros Hresp Hstatus.
  destruct (decide_font_run req_body (run es initial_state))
    as (st1 & Hrun & _).
  rewrite Hrun in Hresp. injection Hresp as <- _. revert Hstatus.
  unfold response_for.
  destruct (complete (query_of req_body)); [| done].
  destruct (choose_cases (query_of req_body) (snapshot (run es initial_state)))
    as [[-> _] | (x & -> & Hx & _)]; [done |].
  intros _. cbn [body]. rewrite output_body_lookup, bool_decide_true
    by (unfold output_fields; set_solver).
  pose proof (run_invariant es initial_state invariant_initial)
    as (_ & Hids & _).
  rewrite List.Forall_forall in Hids.
  destruct (Hids x ltac:(by apply list_elem_of_In)) as (s & Hs & Hne).
  exists s. unfold get. by rewrite Hs.
Qed.

Lemma decide_font_rule_id_witness :
  decide_font (Some example_query) (run [Load example_source] initial_state)
  = (Return (response_for (Some example_query) (snapshot example_state)),
     snd (decide_font (Some example_query) example_state))
  /\ status (response_for (Some example_query) (snapshot example_state)) = 200
  /\ exists s,
       body (response_for (Some example_query) (snapshot example_state))
         !! str "rule_id" = Some (VString s)
       /\ s <> [].
Proof.
  assert (H1 : decide_font (Some example_query)
                 (run [Load example_source] initial_state)
               = (Return (response_for (Some example_query)
                            (snapshot example_state)),
                  snd (decide_font (Some example_query) example_state)))
    by (vm_compute; reflexivity).
  assert (H2 : status (response_for (Some example_query)
                         (snapshot example_state)) = 200)
    by (vm_compute; reflexivity).
  split; [exact H1 |]. split; [exact H2 |].
  exact (decide_font_rule_id [Load example_source] (Some example_query)
           _ _ H1 H2).
Defined.

(** ** The rule built from a row *)

(** Two rows give the same rule when they have the same trimmed text in
    every column under the headers. *)
Lemma mapRowToRule_same_cells (headers cells1 cells2 : row) :
  (forall i, i < length headers -> cell_text cells1 i = cell_text cells2 i) ->
  mapRowToRule headers cells1 = mapRowToRule headers cells2.
Proof.
  intros Hsame. apply map_eq. intros key.
  destruct (decide (key = [])) as [-> | Hkey];
    [unfold mapRowToRule; by rewrite !mapRowToRule_from_lookup_nil |].
  destruct (decide (key = str "__proto__")) as [-> | Hproto];
    [unfold mapRowToRule; by rewrite !mapRowToRule_from_lookup_proto |].
  rewrite !mapRowToRule_lookup by done.
  destruct (last_column key 0 headers) as [i |] eqn:E; [| done].
  simpl. by rewrite (Hsame i) by by eapply last_column_bound.
Qed.

(** X8. A rule has one property for each header that is not blank, named
    by the trimmed header, however many cells the row has, and no other
    property.  The header [__proto__] is the exception: it gives no
    property. *)
Theorem mapRowToRule_property_names (headers cells : row) (key : js_string) :
  is_Some (mapRowToRule headers cells !! key)
  <-> key <> [] /\ key <> str "__proto__" /\ key ∈ trim <$> headers.
Proof.
  destruct (decide (key = [])) as [-> | Hkey].
  { unfold mapRowToRule. rewrite mapRowToRule_from_lookup_nil, lookup_empty.
    split; [by intros [? ?] | by intros [? _]]. }
  destruct (decide (key = str "__proto__")) as [-> | Hproto].
  { unfold mapRowToRule. rewrite mapRowToRule_from_lookup_proto, lookup_empty.
    split; [by intros [? ?] | by intros (_ & ? & _)]. }
  rewrite mapRowToRule_lookup, <- (last_column_is_Some key 0) by done.
  rewrite fmap_is_Some. intuition.
Qed.

(** X9. Only the cells under a header count, and a missing cell counts
    as an empty one: a row gives the same rule when it is cut to the
    length of the header row, and when empty cells are added at its
    end. *)
Theorem mapRowToRule_row_length (headers cells : row) (n : nat) :
  mapRowToRule headers (take (length headers) cells)
  = mapRowToRule headers cells
  /\ mapRowToRule headers (cells ++ replicate n []) = mapRowToRule headers cells.
Proof.
  split; apply mapRowToRule_same_cells; intros i Hi; unfold cell_text, row in *.
  - by rewrite lookup_take_lt.
  - destruct (decide (i < length cells)) as [Hlt | Hge].
    + by rewrite lookup_app_l.
    + rewrite lookup_app_r, (lookup_ge_None_2 cells i) by lia.
      destruct (_ !! (i - length cells)) as [c |] eqn:E; [| done].
      by apply lookup_replicate in E as [-> _].
Qed.

(** X10. White space around a header or a cell does not count: the rule
    is the same when every header and every cell is trimmed
    beforehand. *)
Theorem mapRowToRule_ignores_outer_space (headers cells : row) :
  mapRowToRule (trim <$> headers) (trim <$> cells)
  = mapRowToRule headers cells.
Proof.
  apply map_eq. intros key.
  destruct (decide (key = [])) as [-> | Hkey];
    [unfold mapRowToRule; by rewrite !mapRowToRule_from_lookup_nil |].
  destruct (decide (key = str "__proto__")) as [-> | Hproto];
    [unfold mapRowToRule; by rewrite !mapRowToRule_from_lookup_proto |].
  rewrite !mapRowToRule_lookup, last_column_trimmed by done.
  destruct (last_column key 0 headers) as [i |]; [| done].
  simpl. do 2 f_equal. unfold cell_text, row in *.
  rewrite list_lookup_fmap.
  destruct (cells !! i); simpl; [apply trim_idempotent | done].
Qed.

(** X11. The first column is the rule's identifier whatever its header
    says: when no other header reads [rule_id], the [rule_id] of a rule
    is the trimmed first cell of its row (the empty string for a row
    without cells). *)
Theorem first_column_is_rule_id (h : js_string) (header cells : row) :
  (forall h', h' ∈ header -> trim h' <> str "rule_id") ->
  get (mapRowToRule (normalize_headers (h :: header)) cells) (str "rule_id")
  = VString (cell_text cells 0).
Proof.
  intros Hothers. unfold get.
  rewrite mapRowToRule_lookup by done.
  assert (Hcol : last_column (str "rule_id") 0 (normalize_headers (h :: header))
                 = Some 0).
  { assert (Htail : last_column (str "rule_id") 1 (trim <$> header) = None).
    { destruct (last_column (str "rule_id") 1 (trim <$> header)) eqn:E;
        [| done].
      assert (Hin : str "rule_id" ∈ trim <$> (trim <$> header))
        by (apply (last_column_is_Some _ 1); by eexists).
      apply list_elem_of_fmap in Hin as (t & Ht & Hin).
      apply list_elem_of_fmap in Hin as (h' & -> & Hin).
      rewrite trim_idempotent in Ht. by destruct (Hothers h' Hin). }
    unfold normalize_headers. cbn [fmap list_fmap].
    fold (fmap (M:=list) trim header).
    case_bool_decide as E; cbn [last_column]; rewrite Htail.
    - reflexivity.
    - rewrite E. reflexivity. }
  rewrite Hcol. simpl. by rewrite field_value_rule_id.
Qed.

Lemma first_column_is_rule_id_witness :
  (forall h', h' ∈ str <$> ["usage"; " priority "]%string ->
              trim h' <> str "rule_id")
  /\ get (mapRowToRule
            (normalize_headers (str "ID" :: (str <$> ["usage"; " priority "]%string)))
            (str <$> [" R7 "; "web"; "3"]%string))
       (str "rule_id")
     = VString (cell_text (str <$> [" R7 "; "web"; "3"]%string) 0).
Proof.
  assert (H : forall h', h' ∈ str <$> ["usage"; " priority "]%string ->
                         trim h' <> str "rule_id").
  { intros h' [-> | [-> | []%elem_of_nil]%elem_of_cons]%elem_of_cons;
      vm_compute; discriminate. }
  split; [exact H |].
  exact (first_column_is_rule_id (str "ID")
           (str <$> ["usage"; " priority "]%string)
           (str <$> [" R7 "; "web"; "3"]%string) H).
Defined.

(** X12. Every rule built from a row has a finite priority for the
    matcher, whatever the row holds: the number in its [priority], or 0
    when the sheet has no such column. *)
Theorem mapRowToRule_priority_finite (headers cells : row) :
  Number_isFinite (priority_of (mapRowToRule headers cells)) = true
  /\ (last_column (str "priority") 0 headers = None ->
      priority_of (mapRowToRule headers cells) = 0%float).
Proof.
  unfold priority_of, get. rewrite mapRowToRule_lookup by done.
  destruct (last_column (str "priority") 0 headers) as [i |]; simpl.
  - split; [| done].
    change (field_value (str "priority") (cell_text cells i))
      with (VNumber
              (if Number_isFinite (StringToNumber (cell_text cells i))
               then StringToNumber (cell_text cells i) else 0%float)).
    simpl Number. unfold number_or.
    destruct (Number_isFinite (StringToNumber (cell_text cells i))) eqn:E;
      by destruct (ToBoolean _).
  - split; reflexivity.
Qed.

Lemma mapRowToRule_priority_finite_witness :
  last_column (str "priority") 0 (str <$> ["rule_id"; "usage"]%string) = None
  /\ priority_of (mapRowToRule (str <$> ["rule_id"; "usage"]%string)
                    (str <$> ["R1"; "web"]%string))
     = 0%float.
Proof.
  split; [reflexivity |].
  exact (proj2 (mapRowToRule_priority_finite
                  (str <$> ["rule_id"; "usage"]%string)
                  (str <$> ["R1"; "web"]%string)) eq_refl).
Defined.

(** ** Loading and the two arrays *)

Lemma large_source_overflows : overflows large_source = true.
Proof.
  rewrite (overflows_cases large_source
             (Some ([str "rule_id"] :: large_rows))) by reflexivity.
  change (rules_of (Some ([str "rule_id"] :: large_rows)))
    with (loadedRules (normalize_headers [str "rule_id"]) large_rows).
  rewrite loadedRules_kept, length_fmap. unfold large_rows.
  rewrite filter_replicate.
  change (is_kept [str "rule_id"] [str "R"]) with true. cbv iota.
  rewrite length_replicate, N2Nat.id. reflexivity.
Qed.

(** X13. Where the variable [rules] names an array, a load throws in
    three cases and returns in every other.  When the client cannot be
    made or the request is rejected, the state is as it was.  When the
    rows give more rules than a call takes arguments, the array has
    been emptied before the call that throws: the rules of the load
    before are lost. *)
Theorem loadRules_outcome (src : source) (st : state) :
  is_Some (heap st !! loader_rules st) ->
  if fails src
  then exists message, loadRules src st = (Throw message, st)
  else if overflows src
  then exists message, loadRules src st = (Throw message, emptied st)
  else exists l st', loadRules src st = (Return l, st').
Proof.
  intros [old Hold]. destruct (fails src) eqn:Hfails.
  - destruct (fails_cases src Hfails) as (m & [Hc | [Hc Hf]]); exists m.
    + by apply loadRules_client_throws.
    + by apply loadRules_fetch_rejects.
  - destruct (succeeds_cases src Hfails) as (values & Hc & Hf).
    rewrite (overflows_cases src values) by done. unfold rules_of.
    destruct (default [] values) as [| header dataRows] eqn:Hv.
    + rewrite (loadRules_empty _ _ values) by done.
      destruct (max_arguments src); by eexists _, _.
    + rewrite (loadRules_rows _ _ values header dataRows old) by done.
      destruct (_ <=? _)%N; simpl; [by eexists _, _ | by eexists].
Qed.

Lemma loadRules_outcome_witness :
  is_Some (heap example_state !! loader_rules example_state)
  /\ (exists l st', loadRules example_source example_state = (Return l, st'))
  /\ (exists message,
        loadRules unavailable_source example_state
        = (Throw message, example_state))
  /\ (exists message,
        loadRules large_source example_state
        = (Throw message, emptied example_state)).
Proof.
  assert (H : is_Some (heap example_state !! loader_rules example_state))
    by (vm_compute; eexists; reflexivity).
  pose proof large_source_overflows as Hlarge.
  split; [exact H |]. split; [| split].
  - exact (loadRules_outcome example_source example_state H).
  - exact (loadRules_outcome unavailable_source example_state H).
  - pose proof (loadRules_outcome large_source example_state H) as Hthrow.
    rewrite Hlarge in Hthrow. exact Hthrow.
Defined.

(** X14. A load that finds rows replaces what the load before it left:
    after two loads in a row, of which the first failed or found rows
    and the second found rows, the state is the state after the second
    alone.  In particular loading the same rows twice is loading them
    once. *)
Theorem later_load_replaces_earlier (src1 src2 : source) (st : state) :
  is_Some (heap st !! loader_rules st) ->
  finds_no_row src1 = false ->
  fails src2 = false -> finds_no_row src2 = false ->
  reload src2 (reload src1 st) = reload src2 st.
Proof.
  intros Hsome Hrows1 Hok2 Hrows2.
  destruct (reload_cases src1 st Hsome)
    as [[_ ->] | [[? _] | (h1 & d1 & _ & _ & _ & E1)]];
    [done | congruence |].
  assert (Hsome1 : is_Some (heap (reload src1 st) !! loader_rules (reload src1 st)))
    by (rewrite E1; simpl; rewrite lookup_insert_eq; by eexists).
  destruct (reload_cases src2 st Hsome)
    as [[? _] | [[? _] | (h2 & d2 & _ & _ & F2 & E2)]]; [congruence.. |].
  destruct (reload_cases src2 _ Hsome1)
    as [[? _] | [[? _] | (h2' & d2' & _ & _ & F2' & E2')]]; [congruence.. |].
  rewrite E2', E2, E1. simpl. rewrite insert_insert_eq.
  rewrite F2 in F2'. by injection F2' as <- <-.
Qed.

Lemma later_load_replaces_earlier_witness :
  is_Some (heap initial_state !! loader_rules initial_state)
  /\ finds_no_row example_source = false
  /\ fails example_source = false
  /\ reload example_source (reload example_source initial_state)
     = reload example_source initial_state.
Proof.
  assert (H : is_Some (heap initial_state !! loader_rules initial_state))
    by (eexists; reflexivity).
  split; [exact H |]. split; [reflexivity |]. split; [reflexivity |].
  exact (later_load_replaces_earlier example_source example_source
           initial_state H eq_refl eq_refl eq_refl).
Defined.

(** Once the two modules name different arrays, they do so for good, and
    the array that [selectRule] reads keeps its elements. *)
Lemma step_apart (st : state) (e : event) :
  well_formed st -> loader_rules st <> engine_rules st ->
  well_formed (step st e)
  /\ loader_rules (step st e) <> engine_rules (step st e)
  /\ snapshot (step st e) = snapshot st.
Proof.
  intros Hwf Hne. pose proof Hwf as [Hl [xs Hxs]].
  assert (Hext : forall st', extends st st' ->
            well_formed st' /\ loader_rules st' <> engine_rules st'
            /\ snapshot st' = snapshot st).
  { intros st' Hext. split; [by eapply extends_well_formed |].
    split; [| apply extends_snapshot; [done | by eexists]].
    destruct Hext as (_ & -> & ->). done. }
  destruct e as [src | input | req_body]; simpl.
  - destruct (reload_cases src st Hl)
      as [[_ ->] | [(_ & _ & ->) | (h & d & _ & _ & _ & ->)]]; [done | |].
    + pose proof (fresh_lookup (heap st)) as Hfresh.
      assert (Hf : fresh (dom (heap st)) <> engine_rules st) by congruence.
      unfold well_formed, snapshot. simpl.
      rewrite lookup_insert_eq, lookup_insert_ne by done.
      split; [split; [by eexists | by eexists] |]. done.
    + unfold well_formed, snapshot. simpl.
      rewrite lookup_insert_eq, lookup_insert_ne by done.
      split; [split; [by eexists | by eexists] |]. done.
  - apply Hext, selectRule_extends.
  - apply Hext, decide_font_extends.
Qed.

Lemma run_apart (es : list event) (st : state) :
  well_formed st -> loader_rules st <> engine_rules st ->
  snapshot (run es st) = snapshot st.
Proof.
  revert st. induction es as [| e es IH]; intros st Hwf Hne; [done |].
  destruct (step_apart st e Hwf Hne) as (Hwf' & Hne' & Hsnap).
  simpl. by rewrite IH.
Qed.

(** X15. After a load that found no row, no later load reaches the
    matcher: whatever loads, queries and requests follow, the array that
    [selectRule] reads holds what it held before that load. *)
Theorem empty_load_freezes_rules (src : source) (st : state)
    (es : list event) :
  well_formed st ->
  finds_no_row src = true ->
  snapshot (run es (reload src st)) = snapshot st.
Proof.
  intros Hwf Hnone. pose proof Hwf as [Hl [xs Hxs]].
  destruct (reload_cases src st Hl)
    as [[Hfails _] | [(_ & _ & E) | (h & d & _ & ? & _)]]; [| | congruence].
  { destruct (finds_no_row_cases src Hnone) as (v & Hc & Hf & _).
    unfold fails in Hfails. by rewrite Hc, Hf in Hfails. }
  pose proof (fresh_lookup (heap st)) as Hfresh.
  assert (Hf : fresh (dom (heap st)) <> engine_rules st) by congruence.
  rewrite run_apart; rewrite E.
  - unfold snapshot. simpl. by rewrite lookup_insert_ne.
  - unfold well_formed. simpl.
    rewrite lookup_insert_eq, lookup_insert_ne by done.
    split; by eexists.
  - done.
Qed.

Lemma empty_load_freezes_rules_witness :
  well_formed initial_state
  /\ finds_no_row empty_source = true
  /\ snapshot (run [Load example_source; Select (Some example_query)]
                 (reload empty_source initial_state))
     = snapshot initial_state.
Proof.
  assert (H : well_formed initial_state) by (split; eexists; reflexivity).
  split; [exact H |]. split; [reflexivity |].
  exact (empty_load_freezes_rules empty_source initial_state
           [Load example_source; Select (Some example_query)] H eq_refl).
Defined.

(** While no load has found the sheet empty, both modules name the same
    array. *)
Lemma run_together (es : list event) (st : state) :
  well_formed st -> loader_rules st = engine_rules st ->
  forallb (fun e => negb (is_empty_load e)) es = true ->
  well_formed (run es st) /\ loader_rules (run es st) = engine_rules (run es st).
Proof.
  revert st. induction es as [| e es IH]; intros st Hwf Heq Hes; [done |].
  simpl in Hes. apply andb_prop in Hes as [He Hes]. simpl.
  pose proof Hwf as [Hl _].
  assert (Hext : forall st', extends st st' ->
            well_formed (run es st')
            /\ loader_rules (run es st') = engine_rules (run es st')).
  { intros st' Hext. apply IH; [by eapply extends_well_formed | | done].
    destruct Hext as (_ & -> & ->). done. }
  destruct e as [src | input | req_body]; simpl in *.
  - destruct (reload_cases src st Hl)
      as [[_ ->] | [[E _] | (h & d & _ & _ & _ & ->)]].
    + by apply IH.
    + by rewrite E in He.
    + apply IH; [| done..]. unfold well_formed. simpl. rewrite <- Heq.
      rewrite lookup_insert_eq. split; by eexists.
  - apply Hext, selectRule_extends.
  - apply Hext, decide_font_extends.
Qed.

(** X16. As long as no load has found the sheet empty, the matcher reads
    what the last load left: in a history from the loading of the
    modules in which every load failed or found rows, after one more
    load that finds rows the array that [selectRule] reads holds the
    rules of those rows, and nothing of earlier loads.  When the rules
    are more than a call takes arguments, it holds nothing. *)
Theorem selectRule_reads_last_load (es : list event) (src : source)
    (header : row) (dataRows : list row) :
  forallb (fun e => negb (is_empty_load e)) es = true ->
  client src = Return tt ->
  fetch src = Return (Some (header :: dataRows)) ->
  snapshot (reload src (run es initial_state))
  = if overflows src then []
    else loadedRules (normalize_headers header) dataRows.
Proof.
  intros Hes Hc Hf.
  destruct (run_together es initial_state) as [[[old Hold] _] Heq];
    [split; by eexists | done | done |].
  rewrite reload_eq.
  rewrite (loadRules_rows src _ (Some (header :: dataRows)) header dataRows old)
    by done.
  rewrite (overflows_cases src (Some (header :: dataRows))) by done.
  change (rules_of (Some (header :: dataRows)))
    with (loadedRules (normalize_headers header) dataRows).
  destruct (_ <=? _)%N; unfold snapshot; simpl;
    by rewrite <- Heq, lookup_insert_eq.
Qed.

Lemma selectRule_reads_last_load_witness :
  forallb (fun e => negb (is_empty_load e))
    [Load example_source; Load unavailable_source;
     Request (Some example_query)] = true
  /\ client smaller_source = Return tt
  /\ fetch smaller_source = Return (Some [example_header; example_row_R1])
  /\ snapshot
       (reload smaller_source
          (run [Load example_source; Load unavailable_source;
                Request (Some example_query)] initial_state))
     = if overflows smaller_source then []
       else loadedRules (normalize_headers example_header) [example_row_R1].
Proof.
  split; [reflexivity |]. split; [reflexivity |]. split; [reflexivity |].
  exact (selectRule_reads_last_load
           [Load example_source; Load unavailable_source;
            Request (Some example_query)]
           smaller_source example_header [example_row_R1]
           eq_refl eq_refl eq_refl).
Defined.

(** ** Start-up and the command-line entry *)

(** The first load, from the state in which the modules are loaded. *)
Lemma first_load (src : source) :
  (fails src = true /\ exists message,
      loadRules src initial_state = (Throw message, initial_state))
  \/ (fails src = false /\ overflows src = true /\ exists message,
        loadRules src initial_state = (Throw message, emptied initial_state))
  \/ exists values l st',
       fails src = false /\ overflows src = false
       /\ fetch src = Return values
       /\ loadRules src initial_state = (Return l, st')
       /\ st' = reload src initial_state
       /\ snapshot st' = rules_of values
       /\ (default [] values <> [] -> loaded st' = rules_of values).
Proof.
  destruct (fails src) eqn:Hfails.
  - left. split; [done |].
    destruct (fails_cases src Hfails) as (m & [Hc | [Hc Hf]]); exists m.
    + by apply loadRules_client_throws.
    + by apply loadRules_fetch_rejects.
  - right. destruct (succeeds_cases src Hfails) as (values & Hc & Hf).
    rewrite reload_eq, (overflows_cases src values) by done. unfold rules_of.
    destruct (default [] values) as [| header dataRows] eqn:Hv.
    + right. exists values. rewrite Hv.
      rewrite (loadRules_empty _ _ values) by done.
      eexists _, _. split; [done |].
      split; [by destruct (max_arguments src) |].
      by repeat (split; [done |]).
    + rewrite (loadRules_rows _ _ values header dataRows []) by done.
      destruct (_ <=? _)%N; simpl.
      * right. exists values. rewrite Hv.
        eexists _, _. by repeat (split; [done |]).
      * left. split; [done |]. split; [done |]. by eexists.
Qed.

(** X17. [start] ends the process with code 1 exactly when the first
    load throws or the call of [app.listen] throws; the load throws when
    the client cannot be made, when the request is rejected, and when
    the rows give more rules than a call takes arguments.  Otherwise the
    server is told to listen, also when the sheet is empty, and
    [selectRule] reads the rules of the rows that the load found. *)
Theorem start_outcome (src : source) (listen : completion unit) :
  (start src listen initial_state = Exited 1
   /\ (fails src = true \/ overflows src = true
       \/ exists message, listen = Throw message))
  \/ exists values st',
       fails src = false /\ overflows src = false /\ listen = Return tt
       /\ fetch src = Return values
       /\ start src listen initial_state = Listening st'
       /\ snapshot st' = rules_of values.
Proof.
  unfold start.
  destruct (first_load src)
    as [[Hfails (m & ->)] | [(Hok & Hover & m & ->)
        | (values & l & st' & Hok & Hfits & Hf & -> & _ & Hs & _)]].
  - left. auto.
  - left. auto.
  - destruct listen as [[] | m].
    + right. by exists values, st'.
    + left. split; [done |]. right. right. by exists m.
Qed.

(** X18. When the sheet is empty at start-up and [app.listen] returns,
    the server starts all the same, and from then on no request is
    answered with a rule, whatever the later reloads find: every
    response has status 400 or 404. *)
Theorem empty_sheet_at_startup (src : source) (es : list event)
    (req_body : option query) :
  finds_no_row src = true ->
  exists st0 resp st',
    start src (Return tt) initial_state = Listening st0
    /\ decide_font req_body (run es st0) = (Return resp, st')
    /\ (status resp = 400 \/ status resp = 404).
Proof.
  intros Hnone.
  assert (Hwf : well_formed initial_state) by (split; by eexists).
  pose proof (empty_load_freezes_rules src initial_state es Hwf Hnone)
    as Hsnap.
  destruct (finds_no_row_cases src Hnone) as (v & Hc & Hf & Hv).
  pose proof (loadRules_empty src initial_state v Hc Hf Hv) as E.
  unfold start. rewrite reload_eq, E in Hsnap. rewrite E. cbn [snd] in Hsnap.
  set (st0 := State _ _ _) in *.
  destruct (decide_font_run req_body (run es st0)) as (st' & Hrun & _).
  exists st0, (response_for req_body (snapshot (run es st0))), st'.
  split; [reflexivity |]. split; [exact Hrun |].
  rewrite Hsnap. unfold response_for.
  destruct (complete (query_of req_body)); [by right | by left].
Qed.

Lemma empty_sheet_at_startup_witness :
  finds_no_row empty_source = true
  /\ exists st0 resp st',
       start empty_source (Return tt) initial_state = Listening st0
       /\ decide_font (Some example_query) (run [Load example_source] st0)
          = (Return resp, st')
       /\ (status resp = 400 \/ status resp = 404).
Proof.
  split; [reflexivity |].
  exact (empty_sheet_at_startup empty_source [Load example_source]
           (Some example_query) eq_refl).
Defined.

(** X19. [main] of [index.js] exits with code 1 when the load throws:
    when the client cannot be made or the request is rejected, and when
    the rows give more rules than a call takes arguments, which leaves
    the array emptied.  Otherwise it prints the number of rules that
    the load found: the rows that have a cell and a [rule_id]. *)
Theorem main_prints_rule_count (src : source) :
  (fails src = true /\ main src initial_state = (Failed 1, initial_state))
  \/ (overflows src = true
      /\ main src initial_state = (Failed 1, emptied initial_state))
  \/ exists values,
       fails src = false /\ overflows src = false
       /\ fetch src = Return values
       /\ main src initial_state
          = (Printed (length (rules_of values)), reload src initial_state).
Proof.
  unfold main.
  destruct (first_load src)
    as [[Hfails (m & ->)] | [(Hok & Hover & m & ->)
        | (values & l & st' & Hok & Hfits & Hf & -> & -> & Hs & _)]].
  - by left.
  - right. by left.
  - right. right. exists values. by rewrite Hs.
Qed.

(** ** Priorities written as whole numbers *)

Lemma is_digit_range (c : N) : is_digit c = true <-> (48 <= c <= 57)%N.
Proof.
  unfold is_digit. rewrite andb_true_iff, !N.leb_le. done.
Qed.

Lemma is_digit_not_white_space (c : N) :
  is_digit c = true -> is_white_space c = false.
Proof.
  intros Hc%is_digit_range. unfold is_white_space.
  apply orb_false_intro.
  - apply bool_decide_eq_false. set_unfold. lia.
  - apply andb_false_intro1, N.leb_gt. lia.
Qed.

Lemma all_digits_starts_clean (ds : js_string) :
  all_digits ds = true -> starts_clean ds.
Proof.
  destruct ds as [| c ds]; [done |]. simpl.
  intros [Hc _]%andb_prop. by apply is_digit_not_white_space.
Qed.

Lemma all_digits_reverse (ds : js_string) :
  all_digits ds = true -> all_digits (reverse ds) = true.
Proof.
  unfold all_digits. rewrite !forallb_forall. intros H c Hc.
  apply H. apply list_elem_of_In. apply list_elem_of_In in Hc.
  by rewrite elem_of_reverse in Hc.
Qed.

Lemma trim_all_digits (ds : js_string) : all_digits ds = true -> trim ds = ds.
Proof.
  intros Hds. unfold trim, trimEnd.
  rewrite (trimStart_clean ds) by by apply all_digits_starts_clean.
  rewrite trimStart_clean
    by by apply all_digits_starts_clean, all_digits_reverse.
  apply reverse_involutive.
Qed.

Lemma span_all_digits (ds : js_string) :
  all_digits ds = true -> span_digits ds = (ds, []).
Proof.
  induction ds as [| c ds IH]; [done |]. simpl.
  intros [-> Hds]%andb_prop. by rewrite IH.
Qed.

Lemma foldl_digits_nonneg (ds : js_string) (acc : Z) :
  all_digits ds = true -> (0 <= acc)%Z ->
  (0 <= foldl (fun acc c => (10 * acc + digit_value c)%Z) acc ds)%Z.
Proof.
  revert acc. induction ds as [| c ds IH]; intros acc Hds Hacc; [done |].
  simpl in *. apply andb_prop in Hds as [Hc%is_digit_range Hds].
  apply IH; [done |]. unfold digit_value. lia.
Qed.

Lemma digits_value_nonneg (ds : js_string) :
  all_digits ds = true -> (0 <= digits_value ds)%Z.
Proof. intros Hds. by apply foldl_digits_nonneg. Qed.

Lemma is_digit_cases (c : N) :
  is_digit c = true ->
  c ∈ [48; 49; 50; 51; 52; 53; 54; 55; 56; 57]%N.
Proof. intros Hc%is_digit_range. set_unfold. lia. Qed.

Lemma parse_unsigned_all_digits (ds : js_string) :
  ds <> [] -> all_digits ds = true ->
  parse_unsigned false ds = Some (LitDecimal false (digits_value ds) 0).
Proof.
  intros Hne Hds. unfold parse_unsigned.
  rewrite bool_decide_false.
  2: { intros ->. discriminate. }
  rewrite span_all_digits by done. rewrite app_nil_r.
  destruct ds as [| c ds]; [done |]. reflexivity.
Qed.

Lemma parse_numeric_all_digits (ds : js_string) :
  ds <> [] -> all_digits ds = true ->
  parse_numeric ds = Some (LitDecimal false (digits_value ds) 0).
Proof.
  intros Hne Hds. rewrite <- parse_unsigned_all_digits by done.
  destruct ds as [| c ds]; [done |].
  pose proof Hds as [Hc Hrest]%andb_prop.
  apply is_digit_cases in Hc. set_unfold in Hc.
  destruct Hc as [-> | [-> | [-> | [-> | [-> | [-> | [-> | [-> | [-> | [-> | []]]]]]]]]]];
    try reflexivity.
  destruct ds as [| p ds]; [reflexivity |].
  apply andb_prop in Hrest as [Hp _]. apply is_digit_range in Hp.
  cbn [parse_numeric].
  rewrite !bool_decide_false by lia. reflexivity.
Qed.

Lemma StringToNumber_all_digits (ds : js_string) :
  ds <> [] -> all_digits ds = true ->
  StringToNumber ds = SF2Prim (round_decimal false (digits_value ds) 0).
Proof.
  intros Hne Hds. unfold StringToNumber.
  rewrite trim_all_digits by done.
  destruct ds as [| c ds]; [done |].
  by rewrite parse_numeric_all_digits.
Qed.

Section Exact.
Local Open Scope Z_scope.

Lemma digits2_pos_iter_xO (m d : positive) :
  digits2_pos (Pos.iter xO m d) = (digits2_pos m + d)%positive.
Proof.
  induction d as [| d IH] using Pos.peano_ind.
  - simpl. lia.
  - rewrite Pos.iter_succ. simpl. rewrite IH. lia.
Qed.

Lemma binary_round_aux_exact (s : bool) (m : positive) (e : Z) :
  Zpos (digits2_pos m) = 53 -> -1074 <= e <= 971 ->
  binary_round_aux prec emax s (Zpos m) e loc_Exact = S754_finite s m e.
Proof.
  intros Hd He.
  assert (Hshr : shr_fexp prec emax (Zpos m) e loc_Exact
                 = (Build_shr_record (Zpos m) false false, e)).
  { unfold shr_fexp, shr. simpl Zdigits2. rewrite Hd.
    unfold fexp, SpecFloat.emin, prec, emax.
    replace (Z.max (53 + e - 53) (3 - 1024 - 53) - e) with 0 by lia.
    reflexivity. }
  unfold binary_round_aux. rewrite Hshr. cbn [shr_m loc_of_shr_record round_nearest_even].
  rewrite Hshr. cbn [shr_m].
  unfold prec, emax. by rewrite (proj2 (Z.leb_le e (1024 - 53))) by lia.
Qed.

(** Rounding an integer below [2 ^ 53] is exact. *)
Lemma binary_round_exact (s : bool) (m : positive) :
  Zpos m < 2 ^ 53 ->
  exists m' e',
    binary_round prec emax s m 0 = S754_finite s m' e'
    /\ bounded prec emax m' e' = true
    /\ Zpos m' * 2 ^ (e' + 1074) = Zpos m * 2 ^ 1074.
Proof.
  intros Hm. pose proof (digits2_pos_bounds m) as [Hlo Hhi].
  assert (Hd : Zpos (digits2_pos m) <= 53).
  { destruct (Z.le_gt_cases (Zpos (digits2_pos m)) 53) as [? | Hgt]; [done |].
    assert (2 ^ 53 <= 2 ^ (Zpos (digits2_pos m) - 1))
      by (apply Z.pow_le_mono_r; lia). lia. }
  assert (Hexp : fexp prec emax (Zpos (digits2_pos m) + 0)
                 = Zpos (digits2_pos m) - 53)
    by (unfold fexp, SpecFloat.emin, prec, emax; lia).
  unfold binary_round. rewrite Hexp. unfold shl_align.
  destruct (Zpos (digits2_pos m) - 53 - 0) as [| k | k] eqn:Hk; [| lia |];
    cbv beta iota.
  - rewrite binary_round_aux_exact by lia.
    exists m, 0. split; [done |]. split; [| done].
    unfold bounded, canonical_mantissa, fexp, SpecFloat.emin, prec, emax.
    apply andb_true_intro. split; [apply Z.eqb_eq | apply Z.leb_le]; lia.
  - assert (Hdk : Zpos (digits2_pos (Pos.iter xO m k)) = 53)
      by (rewrite digits2_pos_iter_xO; lia).
    rewrite binary_round_aux_exact by lia.
    exists (Pos.iter xO m k), (Zpos (digits2_pos m) - 53).
    split; [done |]. split.
    + unfold bounded, canonical_mantissa, fexp, SpecFloat.emin, prec, emax.
      rewrite Hdk.
      apply andb_true_intro. split; [apply Z.eqb_eq | apply Z.leb_le]; lia.
    + rewrite Pos_iter_xO, <- Z.mul_assoc, <- Z.pow_add_r by lia.
      do 2 f_equal. lia.
Qed.
End Exact.

Section Whole.
Local Open Scope Z_scope.

Lemma finite_float (f : float) (s : bool) (m : positive) (e : Z) :
  Prim2SF f = S754_finite s m e ->
  is_nan f = false /\ Number_isFinite f = true.
Proof.
  intros H.
  assert (Hnan : is_nan f = false).
  { unfold is_nan. rewrite FloatAxioms.eqb_spec, H. unfold SFeqb, SFcompare.
    rewrite Z.compare_refl, Pos.compare_cont_refl. by destruct s. }
  split; [done |]. unfold Number_isFinite, is_finite. rewrite Hnan.
  unfold is_infinity. rewrite FloatAxioms.eqb_spec, abs_spec, H.
  change (Prim2SF infinity) with (S754_infinity false). reflexivity.
Qed.

(** A text of digits that reads a number below [2 ^ 53] is read as that
    number. *)
Lemma StringToNumber_whole (ds : js_string) :
  is_whole_text ds = true ->
  is_nan (StringToNumber ds) = false
  /\ Number_isFinite (StringToNumber ds) = true
  /\ float_rank (StringToNumber ds) = digits_value ds * 2 ^ 1074.
Proof.
  unfold is_whole_text.
  intros [[Hne%negb_true_iff%bool_decide_eq_false Hds]%andb_prop
            Hlt%Z.ltb_lt]%andb_prop.
  rewrite StringToNumber_all_digits by done.
  pose proof (digits_value_nonneg ds Hds) as Hnn.
  destruct (digits_value ds) as [| p | p] eqn:Hv; [| | lia].
  - repeat split; reflexivity.
  - unfold round_decimal. cbn [Z.leb Z.compare].
    change (Z.to_pos (10 ^ 0)) with 1%positive. rewrite Pos.mul_1_r.
    destruct (binary_round_exact false p Hlt) as (m' & e' & -> & Hb & Hr).
    assert (HP : Prim2SF (SF2Prim (S754_finite false m' e'))
                 = S754_finite false m' e')
      by (by apply Prim2SF_SF2Prim).
    destruct (finite_float _ _ _ _ HP) as [? ?].
    split; [done |]. split; [done |].
    unfold float_rank. rewrite HP. exact Hr.
Qed.

End Whole.

(** X20. When the [priority] cells of two rows are whole numbers written
    in digits (below [2 ^ 53]), the comparator of [selectRule] orders
    their rules as the numbers are ordered, and a rule is a fallback
    exactly when its number is 100: nothing is lost in [Number]. *)
Theorem whole_number_priorities (headers cells1 cells2 : row) (i : nat) :
  last_column (str "priority") 0 headers = Some i ->
  is_whole_text (cell_text cells1 i) = true ->
  is_whole_text (cell_text cells2 i) = true ->
  (0 <? by_priority (mapRowToRule headers cells1)
                    (mapRowToRule headers cells2))%float
  = (digits_value (cell_text cells1 i) <? digits_value (cell_text cells2 i))%Z
  /\ is_fallback (mapRowToRule headers cells1)
     = (digits_value (cell_text cells1 i) =? 100)%Z.
Proof.
  intros Hi H1 H2.
  assert (Hp : forall cells,
             is_whole_text (cell_text cells i) = true ->
             Number (get (mapRowToRule headers cells) (str "priority"))
             = StringToNumber (cell_text cells i)).
  { intros cells Hc. unfold get.
    rewrite mapRowToRule_lookup, Hi by done. simpl.
    change (field_value (str "priority") (cell_text cells i))
      with (VNumber
              (if Number_isFinite (StringToNumber (cell_text cells i))
               then StringToNumber (cell_text cells i) else 0%float)).
    destruct (StringToNumber_whole _ Hc) as (_ & -> & _). done. }
  destruct (StringToNumber_whole _ H1) as (N1 & _ & R1).
  destruct (StringToNumber_whole _ H2) as (N2 & _ & R2).
  split.
  - rewrite by_priority_sign. unfold priority_of.
    rewrite !Hp, !float_rank_number_or, R1, R2 by done.
    assert (0 < 2 ^ 1074)%Z by (apply pow2_pos; lia).
    destruct (Z.ltb_spec (digits_value (cell_text cells1 i))
                (digits_value (cell_text cells2 i)));
      [apply Z.ltb_lt | apply Z.ltb_ge]; nia.
  - unfold is_fallback. rewrite Hp, eqb_rank, R1 by done.
    change (float_rank 100) with (100 * 2 ^ 1074)%Z.
    assert (0 < 2 ^ 1074)%Z by (apply pow2_pos; lia).
    destruct (Z.eqb_spec (digits_value (cell_text cells1 i)) 100);
      [apply Z.eqb_eq | apply Z.eqb_neq]; nia.
Qed.

Lemma whole_number_priorities_witness :
  last_column (str "priority") 0 (str <$> ["rule_id"; "priority"]%string)
  = Some 1%nat
  /\ is_whole_text (cell_text (str <$> ["R1"; " 7 "]%string) 1) = true
  /\ is_whole_text (cell_text (str <$> ["SYS"; "100"]%string) 1) = true
  /\ (0 <? by_priority
             (mapRowToRule (str <$> ["rule_id"; "priority"]%string)
                (str <$> ["R1"; " 7 "]%string))
             (mapRowToRule (str <$> ["rule_id"; "priority"]%string)
                (str <$> ["SYS"; "100"]%string)))%float
     = (digits_value (cell_text (str <$> ["R1"; " 7 "]%string) 1)
        <? digits_value (cell_text (str <$> ["SYS"; "100"]%string) 1))%Z
  /\ is_fallback (mapRowToRule (str <$> ["rule_id"; "priority"]%string)
                    (str <$> ["R1"; " 7 "]%string))
     = (digits_value (cell_text (str <$> ["R1"; " 7 "]%string) 1) =? 100)%Z.
Proof.
  split; [reflexivity |]. split; [reflexivity |]. split; [reflexivity |].
  exact (whole_number_priorities
           (str <$> ["rule_id"; "priority"]%string)
           (str <$> ["R1"; " 7 "]%string)
           (str <$> ["SYS"; "100"]%string) 1 eq_refl eq_refl eq_refl).
Defined.

(** ** Requests against the cells of the sheet *)




